(** * ingest_from_apigw: a shallow embedding of the Spec Hub ingestion script

    The script [ingest_from_apigw.py] obtains an OpenAPI document (from a
    local file or from an API Gateway export), looks a spec up by name in
    Postman Spec Hub, creates or updates it by trying a fixed list of request
    body shapes, and triggers collection generation.

    The embedding keeps the script's functions and their names.  Effects are
    threaded explicitly: every function of the script is a computation over a
    [state] (the file system and the trace of observable events) that reads a
    fixed [environ] (environment variable, platform, and the two external
    parties: the HTTP server and the [aws] command) and ends in a [result]
    (a value, a raised exception, or [SystemExit]). *)

From stdpp Require Import gmap strings list.
From Stdlib Require Import ZArith Ascii String.

#[local] Set Warnings "-register-all".

Local Open Scope string_scope.
Local Open Scope Z_scope.

(** ** Values *)

(** Decoded JSON, as [json.loads] returns it: [None], [bool], [int], [str],
    [list], [dict].  A [dict] is kept as its items in insertion order, keys
    pairwise distinct; numbers with a fraction or an exponent are outside the
    model. *)
Inductive json : Type :=
| JNull
| JBool (b : bool)
| JNum (n : Z)
| JStr (s : string)
| JArr (items : list json)
| JObj (items : list (string * json)).

(** Python exception classes the script can meet. *)
Inductive exn_class : Type :=
| RuntimeError
| HTTPError
| URLError
| TimeoutError
| JSONDecodeError
| TypeError
| AttributeError
| FileNotFoundError
| CalledProcessError.

(** An f-string is kept as its pieces: literal text and the interpolated
    values, in order.  What [str()] prints for a value is not modelled; the
    value itself is kept.  An exception carries its class, its message and
    the exception it was raised [from]. *)
Inductive exn : Type :=
| Exn (cls : exn_class) (msg : list frag) (cause : option exn)
with frag : Type :=
| Lit (s : string)
| FmtInt (n : Z)
| FmtJson (j : json)
| FmtStrs (l : list string)
| FmtExn (e : option exn).

Abbreviation fstring := (list frag).

(** [d.get(k)] seen on the items: the value of the first (only) item with
    that key. *)
Fixpoint dict_lookup (k : string) (items : list (string * json)) : option json :=
  match items with
  | [] => None
  | (k', v) :: rest => if String.eqb k k' then Some v else dict_lookup k rest
  end.

(** [d.get(k)] with its default [None]. *)
Definition dict_get (k : string) (items : list (string * json)) : json :=
  match dict_lookup k items with
  | Some v => v
  | None => JNull
  end.

(** Python truth value of a decoded JSON value. *)
Definition truthy (j : json) : bool :=
  match j with
  | JNull => false
  | JBool b => b
  | JNum n => negb (n =? 0)
  | JStr s => negb (String.eqb s "")
  | JArr l => match l with [] => false | _ => true end
  | JObj l => match l with [] => false | _ => true end
  end.

(** Truth value of an optional string (an environment variable, an argparse
    option): [None] and the empty string are false. *)
Definition truthy_str (o : option string) : bool :=
  match o with
  | Some s => negb (String.eqb s "")
  | None => false
  end.

(** [v == s] for a [str] [s]. *)
Definition eq_str (v : json) (s : string) : bool :=
  match v with
  | JStr s' => String.eqb s' s
  | _ => false
  end.

(** [len(s)] of a [str] held as its UTF-8 bytes: the bytes that do not
    continue a character. *)
Definition is_continuation (c : ascii) : bool :=
  let n := Z.of_N (N_of_ascii c) in (128 <=? n) && (n <? 192).

Fixpoint py_len (s : string) : Z :=
  match s with
  | EmptyString => 0
  | String c rest => (if is_continuation c then 0 else 1) + py_len rest
  end.

(** ** Text files

    A file is its bytes, and a [str] is held as its UTF-8 bytes, so that
    decoding and encoding a well-formed text change nothing.
    [open(path, "r", encoding="utf-8")] reads in universal-newlines mode:
    ["\r\n"] and a lone ["\r"] come back as ["\n"].
    [open(path, "w", encoding="utf-8")] writes each ["\n"] as [os.linesep].
    A path that is not in the file system raises [FileNotFoundError]; files
    that are not UTF-8 and other I/O failures are outside the model. *)
Definition CR : ascii := ascii_of_nat 13.
Definition LF : ascii := ascii_of_nat 10.

Fixpoint universal_newlines (s : string) : string :=
  match s with
  | EmptyString => EmptyString
  | String c rest =>
      if Ascii.eqb c CR then
        String LF
          match rest with
          | String c2 rest2 =>
              if Ascii.eqb c2 LF then universal_newlines rest2
              else universal_newlines rest
          | EmptyString => EmptyString
          end
      else String c (universal_newlines rest)
  end.

Fixpoint write_newlines (linesep : string) (s : string) : string :=
  match s with
  | EmptyString => EmptyString
  | String c rest =>
      if Ascii.eqb c LF then linesep ++ write_newlines linesep rest
      else String c (write_newlines linesep rest)
  end.

(** ** The outside world *)

Record request : Type := {
  req_method : string;
  req_url : fstring;
  req_headers : list (string * string);
  req_data : option json;
  req_timeout : Z;
}.

(** Body of a 2xx response, through [resp.read().decode("utf-8")] and
    [json.loads]. *)
Inductive body : Type :=
| BodyEmpty
| BodyJson (j : json)
| BodyInvalid (raw : string).

(** What [urllib.request.urlopen] does with a request. *)
Inductive http_outcome : Type :=
| Http2xx (b : body)
| HttpStatus (code : Z) (raw : string)
| HttpUnreachable (reason : string)
| HttpTimeout.

(** What running the [aws] command does: not on the PATH, or an exit status
    and what it left in its output file. *)
Inductive aws_outcome : Type :=
| AwsNotInstalled
| AwsExit (returncode : Z) (written : option string).

Inductive stream : Type := Stdout | Stderr.

Inductive event : Type :=
| EvPrint (to : stream) (text : fstring)
| EvHttp (r : request)
| EvRun (cmd : list string)
| EvWrite (path : string) (text : string).

Record environ : Type := {
  POSTMAN_API_KEY : option string;
  os_linesep : string;
  http : list event -> request -> http_outcome;
  aws : list event -> list string -> aws_outcome;
}.

Record state : Type := {
  trace : list event;
  fs : gmap string string;
}.

(** ** Computations *)

Inductive result (A : Type) : Type :=
| Ok (a : A)
| Raise (e : exn)
| SystemExit (code : Z).
Arguments Ok {A} a.
Arguments Raise {A} e.
Arguments SystemExit {A} code.

Definition M (A : Type) : Type := environ -> state -> result A * state.

Definition ret {A} (a : A) : M A := fun _ st => (Ok a, st).

Definition bind {A B} (c : M A) (k : A -> M B) : M B :=
  fun e st =>
    match c e st with
    | (Ok a, st') => k a e st'
    | (Raise x, st') => (Raise x, st')
    | (SystemExit n, st') => (SystemExit n, st')
    end.

Definition raise {A} (x : exn) : M A := fun _ st => (Raise x, st).

Definition sys_exit {A} (code : Z) : M A := fun _ st => (SystemExit code, st).

(** [try: c  except Exception as x: h x].  [SystemExit] is not an
    [Exception] and passes through. *)
Definition try_except {A} (c : M A) (h : exn -> M A) : M A :=
  fun e st =>
    match c e st with
    | (Raise x, st') => h x e st'
    | other => other
    end.

(** A computation without effects. *)
Definition lift {A} (r : result A) : M A := fun _ st => (r, st).

Definition emit (ev : event) : M unit :=
  fun _ st => (Ok tt, {| trace := trace st ++ [ev]; fs := fs st |}).

Notation "'let*' x ':=' c 'in' k" := (bind c (fun x => k))
  (at level 10, x name, c at level 100, k at level 200).
Notation "c ';;;' k" := (bind c (fun _ => k))
  (at level 100, k at level 200, right associativity).

Definition print (text : fstring) : M unit := emit (EvPrint Stdout text).
Definition print_err (text : fstring) : M unit := emit (EvPrint Stderr text).

(** [with open(path, "r", encoding="utf-8") as f: f.read()] *)
Definition read_text (path : string) : M string :=
  fun _ st =>
    match fs st !! path with
    | Some bytes => (Ok (universal_newlines bytes), st)
    | None =>
        (Raise (Exn FileNotFoundError
                  [Lit "[Errno 2] No such file or directory: "; Lit path] None),
         st)
    end.

(** [with open(path, "w", encoding="utf-8") as out: out.write(text)] *)
Definition write_text (path : string) (text : string) : M unit :=
  fun e st =>
    let bytes := write_newlines (os_linesep e) text in
    (Ok tt, {| trace := trace st ++ [EvWrite path bytes];
               fs := <[path := bytes]> (fs st) |}).

(** [urllib.request.urlopen(req, timeout=60)]: the request goes out and the
    server, which has seen the run so far, answers. *)
Definition urlopen (req : request) : M http_outcome :=
  fun e st =>
    (Ok (http e (trace st) req),
     {| trace := trace st ++ [EvHttp req]; fs := fs st |}).

(** [subprocess.run(cmd, check=True)] for the [aws] command, whose last
    argument is its output file. *)
Definition subprocess_run (cmd : list string) : M unit :=
  fun e st =>
    let st' := {| trace := trace st ++ [EvRun cmd]; fs := fs st |} in
    match aws e (trace st) cmd with
    | AwsNotInstalled =>
        (Raise (Exn FileNotFoundError
                  [Lit "[Errno 2] No such file or directory: "; Lit "aws"] None),
         st')
    | AwsExit code written =>
        let st'' :=
          match written with
          | Some bytes =>
              {| trace := trace st'; fs := <[List.last cmd "" := bytes]> (fs st') |}
          | None => st'
          end in
        if code =? 0 then (Ok tt, st'')
        else (Raise (Exn CalledProcessError
                       [Lit "Command "; FmtStrs cmd;
                        Lit " returned non-zero exit status "; FmtInt code] None),
              st'')
    end.

(** ** The script *)

Definition POSTMAN_API_BASE : string := "https://api.getpostman.com".

(** [urllib.request.Request(url, data=data, headers=headers, method=method)]
    as [http_json] builds it, with the timeout it is opened with. *)
Definition Request (method : string) (url : fstring) (api_key : string)
    (body : option json) : request :=
  let headers :=
    [("X-Api-Key", api_key);
     ("Content-Type", "application/json");
     ("Accept", "application/json")] in
  let data := body in
  {| req_method := method; req_url := url; req_headers := headers;
     req_data := data; req_timeout := 60 |}.

(** What [http_json] makes of the outcome of [urlopen].  Only [HTTPError] is
    caught (and re-raised as a [RuntimeError]); a failure to connect, a
    timeout, and text that [json.loads] rejects propagate as they are.  The
    interpreter's wording of those messages is not modelled. *)
Definition read_response (url : fstring) (outcome : http_outcome) : result json :=
  match outcome with
  | Http2xx BodyEmpty => Ok (JObj [])
  | Http2xx (BodyJson j) => Ok j
  | Http2xx (BodyInvalid raw) =>
      Raise (Exn JSONDecodeError [Lit "Expecting value: "; Lit raw] None)
  | HttpStatus code raw =>
      Raise (Exn RuntimeError
               ([Lit "HTTP "; FmtInt code; Lit " calling "] ++ url
                ++ [Lit ": "; Lit raw])
               (Some (Exn HTTPError [Lit "HTTP Error "; FmtInt code] None)))
  | HttpUnreachable reason =>
      Raise (Exn URLError [Lit "<urlopen error "; Lit reason; Lit ">"] None)
  | HttpTimeout => Raise (Exn TimeoutError [Lit "timed out"] None)
  end.

(** Make an HTTP request and return JSON response. *)
Definition http_json (method : string) (url : fstring) (api_key : string)
    (body : option json) : M json :=
  let req := Request method url api_key body in
  let* outcome := urlopen req in
  lift (read_response url outcome).

(** Export OpenAPI 3.0 spec from AWS API Gateway. *)
Definition aws_export_openapi (region rest_api_id stage_name out_path : string)
    : M unit :=
  let cmd :=
    ["aws"; "apigateway"; "get-export"; "--region"; region; "--rest-api-id";
     rest_api_id; "--stage-name"; stage_name; "--export-type"; "oas30";
     out_path] in
  print [Lit "[..] Running: "; Lit (String.concat " " cmd)] ;;;
  subprocess_run cmd.

(** [resp.get("specs", [])]: only a [dict] has [get]. *)
Definition get_specs (resp : json) : result json :=
  match resp with
  | JObj items =>
      match dict_lookup "specs" items with
      | Some v => Ok v
      | None => Ok (JArr [])
      end
  | _ => Raise (Exn AttributeError [Lit "object has no attribute 'get'"] None)
  end.

(** List all specs in a workspace. *)
Definition list_specs (workspace_id api_key : string) : M json :=
  let url := [Lit POSTMAN_API_BASE; Lit "/specs?workspaceId="; Lit workspace_id] in
  let* resp := http_json "GET" url api_key None in
  lift (get_specs resp).

(** ["spec" in resp], ["id" in resp] where [resp] is not a [dict]: membership
    in a list, substring of a string, [TypeError] on anything else. *)
Definition contains (k : string) (j : json) : option bool :=
  match j with
  | JObj items => Some (bool_decide (is_Some (dict_lookup k items)))
  | JArr l => Some (existsb (fun x => eq_str x k) l)
  | JStr s => Some (bool_decide (is_Some (String.index 0 k s)))
  | _ => None
  end.

(** Extract spec ID from various response shapes. *)
Definition _extract_spec_id (resp : json) : result json :=
  let unexpected :=
    Raise (Exn RuntimeError [Lit "Unexpected spec response: "; FmtJson resp] None) in
  let not_iterable :=
    Raise (Exn TypeError [Lit "argument is not iterable"] None) in
  let bad_index :=
    Raise (Exn TypeError [Lit "indices must be integers"] None) in
  match resp with
  | JObj items =>
      let by_id :=
        match dict_lookup "id" items with
        | Some (JStr s) => Ok (JStr s)
        | _ => unexpected
        end in
      match dict_lookup "spec" items with
      | Some (JObj inner) =>
          match dict_lookup "id" inner with
          | Some v => Ok v
          | None => by_id
          end
      | _ => by_id
      end
  | _ =>
      match contains "spec" resp with
      | None => not_iterable
      | Some true => bad_index
      | Some false =>
          match contains "id" resp with
          | Some true => bad_index
          | _ => unexpected
          end
      end
  end.

(** The candidate request bodies, in the order they are tried. *)
Definition payload_variants (name spec_yaml : string) : list json :=
  [ (* Variant A (common in examples) *)
    JObj [("name", JStr name); ("type", JStr "openapi3");
          ("language", JStr "yaml"); ("schema", JStr spec_yaml)];
    (* Variant B (seen in some Postman request templates) *)
    JObj [("specName", JStr name); ("specType", JStr "openapi3");
          ("filePath", JStr (name ++ ".yaml")); ("content", JStr spec_yaml)];
    (* Variant C (wrapped) *)
    JObj [("spec",
           JObj [("name", JStr name); ("type", JStr "openapi3");
                 ("language", JStr "yaml"); ("schema", JStr spec_yaml)])] ].

(** One pass of the body of [create_spec]'s [try]. *)
Definition create_attempt (url : fstring) (api_key : string) (body : json)
    : M json :=
  let* resp := http_json "POST" url api_key (Some body) in
  lift (_extract_spec_id resp).

(** The [for body in payload_variants] loop of [create_spec] from the
    variants still to try, and the [raise] after it.  [tried] is
    [len(payload_variants)]. *)
Fixpoint create_spec_loop (url : fstring) (api_key : string) (tried : Z)
    (variants : list json) (last_err : option exn) : M json :=
  match variants with
  | [] =>
      raise (Exn RuntimeError
               [Lit "Failed to create spec (tried "; FmtInt tried;
                Lit " payloads): "; FmtExn last_err]
               last_err)
  | body :: rest =>
      try_except (create_attempt url api_key body)
        (fun e => create_spec_loop url api_key tried rest (Some e))
  end.

(** Create a new spec in Spec Hub. *)
Definition create_spec (workspace_id api_key name spec_yaml : string) : M json :=
  let url := [Lit POSTMAN_API_BASE; Lit "/specs?workspaceId="; Lit workspace_id] in
  let variants := payload_variants name spec_yaml in
  create_spec_loop url api_key (Z.of_nat (List.length variants)) variants None.

(** One pass of the body of [update_spec]'s [try]: the response is not
    looked at. *)
Definition update_attempt (url : fstring) (api_key : string) (body : json)
    : M unit :=
  let* _ := http_json "PUT" url api_key (Some body) in
  ret tt.

Fixpoint update_spec_loop (url : fstring) (api_key : string) (spec_id : json)
    (variants : list json) (last_err : option exn) : M unit :=
  match variants with
  | [] =>
      raise (Exn RuntimeError
               [Lit "Failed to update spec "; FmtJson spec_id; Lit ": ";
                FmtExn last_err]
               last_err)
  | body :: rest =>
      try_except (update_attempt url api_key body)
        (fun e => update_spec_loop url api_key spec_id rest (Some e))
  end.

(** Update an existing spec in Spec Hub. *)
Definition update_spec (spec_id : json) (api_key name spec_yaml : string)
    : M unit :=
  let url := [Lit POSTMAN_API_BASE; Lit "/specs/"; FmtJson spec_id] in
  update_spec_loop url api_key spec_id (payload_variants name spec_yaml) None.

(** Trigger collection generation from a spec. *)
Definition generate_collection_from_spec (spec_id : json) (api_key : string)
    : M json :=
  let url := [Lit POSTMAN_API_BASE; Lit "/specs/"; FmtJson spec_id;
              Lit "/generations/collection"] in
  http_json "POST" url api_key (Some (JObj [])).

(** *** [main] *)

(** The parsed command line ([args = parser.parse_args()]). *)
Record Namespace : Type := {
  workspace_id : string;
  local_spec : option string;
  region : option string;
  rest_api_id : option string;
  stage_name : option string;
  spec_name : string;
  out : string;
}.

(** ["=" * 60] *)
Definition rule : string :=
  "============================================================".

Definition newline : string := String LF EmptyString.

(** [os.environ.get("POSTMAN_API_KEY")] *)
Definition os_environ_get_api_key : M (option string) :=
  fun e st => (Ok (POSTMAN_API_KEY e), st).

(** [parser.error(message)]: argparse reports on stderr and leaves with
    [SystemExit(2)]. *)
Definition parser_error {A} (message : string) : M A :=
  print_err [Lit "error: "; Lit message] ;;;
  sys_exit 2.

(** Iterating a decoded JSON value: the items of a list, the keys of a dict,
    the characters of a string; nothing else can be iterated. *)
Definition iterate (j : json) : result (list json) :=
  match j with
  | JArr l => Ok l
  | JObj items => Ok (map (fun kv => JStr (fst kv)) items)
  | JStr s => Ok (map (fun c => JStr (String c EmptyString)) (list_ascii_of_string s))
  | _ => Raise (Exn TypeError [Lit "object is not iterable"] None)
  end.

(** [[s for s in specs if s.get("name") == spec_name]]: every element must be
    a [dict]. *)
Fixpoint with_name (spec_name : string) (specs : list json)
    : result (list (list (string * json))) :=
  match specs with
  | [] => Ok []
  | JObj s :: rest =>
      match with_name spec_name rest with
      | Ok found =>
          Ok (if eq_str (dict_get "name" s) spec_name then s :: found else found)
      | other => other
      end
  | _ :: _ => Raise (Exn AttributeError [Lit "object has no attribute 'get'"] None)
  end.

(** [sorted(keys)] *)
Fixpoint insert_sorted (k : string) (l : list string) : list string :=
  match l with
  | [] => [k]
  | k' :: rest =>
      if String.ltb k k' then k :: l else k' :: insert_sorted k rest
  end.

Definition sorted (l : list string) : list string :=
  fold_right insert_sorted [] l.

(** [gen.keys()]: only a [dict] has [keys]. *)
Definition keys (gen : json) : result (list string) :=
  match gen with
  | JObj items => Ok (map fst items)
  | _ => Raise (Exn AttributeError [Lit "object has no attribute 'keys'"] None)
  end.

(** Step 1, [if args.local_spec:] branch. *)
Definition load_local (args : Namespace) (path : string) : M string :=
  print [Lit "Step 1: Load OpenAPI from local file"] ;;;
  print [Lit rule] ;;;
  let* spec_yaml := read_text path in
  (if negb (String.eqb path (out args)) then write_text (out args) spec_yaml
   else ret tt) ;;;
  print [Lit "✅ Loaded spec → "; Lit path; Lit " (";
         FmtInt (py_len spec_yaml); Lit " chars)"] ;;;
  (if negb (String.eqb path (out args)) then
     print [Lit "✅ Wrote copy → "; Lit (out args)]
   else ret tt) ;;;
  ret spec_yaml.

(** The options export mode needs and that are not set. *)
Definition missing (args : Namespace) : list string :=
  map fst
    (List.filter (fun p => negb (truthy_str (snd p)))
       [("--region", region args);
        ("--rest-api-id", rest_api_id args);
        ("--stage-name", stage_name args)]).

(** Step 1, [else:] branch. *)
Definition export_from_gateway (args : Namespace) : M string :=
  print [Lit "Step 1: Export OpenAPI from API Gateway"] ;;;
  print [Lit rule] ;;;
  (match missing args with
   | [] => ret tt
   | names =>
       parser_error
         ("Missing required arguments for AWS export mode: "
          ++ String.concat ", " names ++ " (or provide --local-spec)")
   end) ;;;
  (match region args, rest_api_id args, stage_name args with
   | Some r, Some a, Some s => aws_export_openapi r a s (out args)
   | _, _, _ =>
       (* not reached: an unset option is reported by [missing] *)
       raise (Exn TypeError [Lit "expected str, not NoneType"] None)
   end) ;;;
  let* spec_yaml := read_text (out args) in
  print [Lit "✅ Exported spec → "; Lit (out args); Lit " (";
         FmtInt (py_len spec_yaml); Lit " chars)"] ;;;
  ret spec_yaml.

(** Step 1: Get spec (AWS export OR local fallback). *)
Definition get_spec (args : Namespace) : M string :=
  print [Lit rule] ;;;
  if truthy_str (local_spec args) then
    load_local args (default "" (local_spec args))
  else export_from_gateway args.

(** Step 2, [else:] branch. *)
Definition create_path (args : Namespace) (api_key spec_yaml : string) : M json :=
  let* spec_id :=
    create_spec (workspace_id args) api_key (spec_name args) spec_yaml in
  print [Lit "✅ Created spec: "; Lit (spec_name args); Lit " (id=";
         FmtJson spec_id; Lit ")"] ;;;
  ret spec_id.

(** Step 2, [if existing and existing[0].get("id"):] branch. *)
Definition update_path (args : Namespace) (api_key spec_yaml : string)
    (spec_id : json) : M json :=
  update_spec spec_id api_key (spec_name args) spec_yaml ;;;
  print [Lit "✅ Updated spec: "; Lit (spec_name args); Lit " (id=";
         FmtJson spec_id; Lit ")"] ;;;
  ret spec_id.

(** Step 2: Upsert to Spec Hub. *)
Definition upsert (args : Namespace) (api_key spec_yaml : string) : M json :=
  print [Lit (newline ++ rule)] ;;;
  print [Lit "Step 2: Upsert spec to Postman Spec Hub"] ;;;
  print [Lit rule] ;;;
  let* specs := list_specs (workspace_id args) api_key in
  let* items := lift (iterate specs) in
  let* existing := lift (with_name (spec_name args) items) in
  match existing with
  | first :: _ =>
      if truthy (dict_get "id" first) then
        update_path args api_key spec_yaml (dict_get "id" first)
      else create_path args api_key spec_yaml
  | [] => create_path args api_key spec_yaml
  end.

(** Step 3: Generate baseline collection. *)
Definition generate (spec_id : json) (api_key : string) : M unit :=
  print [Lit (newline ++ rule)] ;;;
  print [Lit "Step 3: Generate baseline collection from spec"] ;;;
  print [Lit rule] ;;;
  let* gen := generate_collection_from_spec spec_id api_key in
  let* ks := lift (keys gen) in
  print [Lit "✅ Generation request completed (response keys: ";
         FmtStrs (sorted ks); Lit ")"].

(** Steps 2 and 3 and the closing lines of [main], once the spec text is
    there. *)
Definition sync_spec (args : Namespace) (api_key spec_yaml : string) : M Z :=
  let* spec_id := upsert args api_key spec_yaml in
  generate spec_id api_key ;;;
  print [Lit (newline ++ rule)] ;;;
  print [Lit "✅ DONE - Ingestion complete"] ;;;
  print [Lit rule] ;;;
  print [Lit "Next: Protect curated collections from regen drift."] ;;;
  ret 0.

Definition main (args : Namespace) : M Z :=
  let* api_key := os_environ_get_api_key in
  if negb (truthy_str api_key) then
    print_err [Lit "❌ Missing POSTMAN_API_KEY environment variable"] ;;;
    ret 2
  else
    let api_key := default "" api_key in
    let* spec_yaml := get_spec args in
    sync_spec args api_key spec_yaml.

(** [sys.exit(main())]: the status the process ends with.  An exception that
    nothing catches ends it with status 1. *)
Definition exit_status (r : result Z) : Z :=
  match r with
  | Ok code => code
  | Raise _ => 1
  | SystemExit code => code
  end.

(** ** Reading a trace *)

(** The state after more events. *)
Definition log (st : state) (evs : list event) : state :=
  {| trace := trace st ++ evs; fs := fs st |}.

(** The HTTP requests of a trace, in order. *)
Fixpoint requests (tr : list event) : list request :=
  match tr with
  | [] => []
  | EvHttp r :: rest => r :: requests rest
  | _ :: rest => requests rest
  end.

(** The external commands of a trace. *)
Fixpoint commands (tr : list event) : list (list string) :=
  match tr with
  | [] => []
  | EvRun cmd :: rest => cmd :: commands rest
  | _ :: rest => commands rest
  end.

(** The file writes of a trace. *)
Fixpoint writes (tr : list event) : list (string * string) :=
  match tr with
  | [] => []
  | EvWrite path text :: rest => (path, text) :: writes rest
  | _ :: rest => writes rest
  end.

Definition initial (files : gmap string string) : state :=
  {| trace := []; fs := files |}.

(** ** Results *)

(** Sequencing of results, without effects. *)
Definition and_then {A B} (r : result A) (f : A -> result B) : result B :=
  match r with
  | Ok a => f a
  | Raise x => Raise x
  | SystemExit code => SystemExit code
  end.

Definition succeeded {A} (r : result A) : Prop := exists a, r = Ok a.

(** ** Reading the variant loop

    The events of trying these bodies one after the other, [req] being the
    request a body goes out in. *)
Definition sent (req : json -> request) (bodies : list json) : list event :=
  map (fun body => EvHttp (req body)) bodies.

(** What the [j]-th attempt (from 0) answers when the ones before it have
    been made. *)
Definition answer {A} (attempt : json -> M A) (req : json -> request)
    (e : environ) (st : state) (variants : list json) (j : nat) (body : json)
    : result A :=
  fst (attempt body e (log st (sent req (take j variants)))).

Definition create_url (workspace_id : string) : fstring :=
  [Lit POSTMAN_API_BASE; Lit "/specs?workspaceId="; Lit workspace_id].

Definition update_url (spec_id : json) : fstring :=
  [Lit POSTMAN_API_BASE; Lit "/specs/"; FmtJson spec_id].

Definition post (url : fstring) (api_key : string) (body : json) : request :=
  Request "POST" url api_key (Some body).

Definition put (url : fstring) (api_key : string) (body : json) : request :=
  Request "PUT" url api_key (Some body).

(** The exception [create_spec] raises after its loop. *)
Definition create_failed (tried : Z) (last_err : option exn) : exn :=
  Exn RuntimeError
    [Lit "Failed to create spec (tried "; FmtInt tried; Lit " payloads): ";
     FmtExn last_err]
    last_err.

(** The exception [update_spec] raises after its loop. *)
Definition update_failed (spec_id : json) (last_err : option exn) : exn :=
  Exn RuntimeError
    [Lit "Failed to update spec "; FmtJson spec_id; Lit ": "; FmtExn last_err]
    last_err.

(** What variant [j] (from 0) answers inside [create_spec], inside
    [update_spec]. *)
Definition create_answer (url : fstring) (api_key : string) :=
  answer (create_attempt url api_key) (post url api_key).

Definition update_answer (url : fstring) (api_key : string) :=
  answer (update_attempt url api_key) (put url api_key).

(** ** Reading [main] *)

(** The request of [list_specs] and of [generate_collection_from_spec]. *)
Definition list_request (workspace_id api_key : string) : request :=
  Request "GET" (create_url workspace_id) api_key None.

Definition generation_url (spec_id : json) : fstring :=
  [Lit POSTMAN_API_BASE; Lit "/specs/"; FmtJson spec_id;
   Lit "/generations/collection"].

Definition generation_request (spec_id : json) (api_key : string) : request :=
  post (generation_url spec_id) api_key (JObj []).

(** The lines printed at the start of step 1 (either mode), 2 and 3. *)
Definition local_banner : list event :=
  [EvPrint Stdout [Lit rule];
   EvPrint Stdout [Lit "Step 1: Load OpenAPI from local file"];
   EvPrint Stdout [Lit rule]].

Definition export_banner : list event :=
  [EvPrint Stdout [Lit rule];
   EvPrint Stdout [Lit "Step 1: Export OpenAPI from API Gateway"];
   EvPrint Stdout [Lit rule]].

Definition upsert_banner : list event :=
  [EvPrint Stdout [Lit (newline ++ rule)];
   EvPrint Stdout [Lit "Step 2: Upsert spec to Postman Spec Hub"];
   EvPrint Stdout [Lit rule]].

Definition generate_banner : list event :=
  [EvPrint Stdout [Lit (newline ++ rule)];
   EvPrint Stdout [Lit "Step 3: Generate baseline collection from spec"];
   EvPrint Stdout [Lit rule]].

(** The specs of a list whose name is the one looked for, in list order. *)
Definition named (spec_name : string) (refs : list (list (string * json)))
    : list (list (string * json)) :=
  List.filter (fun s => eq_str (dict_get "name" s) spec_name) refs.

(** Whether a byte occurs in a text. *)
Fixpoint occurs (c : ascii) (s : string) : bool :=
  match s with
  | EmptyString => false
  | String c' rest => Ascii.eqb c' c || occurs c rest
  end.

(** A computation that leaves the files alone. *)
Definition keeps_files {A} (c : M A) : Prop :=
  forall e st,
    fs (snd (c e st)) = fs st /\
    writes (trace (snd (c e st))) = writes (trace st).



(** An update variant read the way a create variant is: the request returns
    and an identifier can be extracted from its response.  [update_spec]
    itself does not look at the response. *)
Definition put_with_identifier (url : fstring) (api_key : string) (body : json)
    : M json :=
  let* resp := http_json "PUT" url api_key (Some body) in
  lift (_extract_spec_id resp).

(** ** Scenarios *)

(** A server that answers the n-th request of the run with the n-th outcome
    of a script, and is unreachable afterwards. *)
Definition scripted (script : list http_outcome)
    : list event -> request -> http_outcome :=
  fun tr _ => nth (List.length (requests tr)) script (HttpUnreachable "no answer").

(** A POSIX machine with the key set and no [aws] command, in front of a
    scripted server. *)
Definition posix (script : list http_outcome) : environ :=
  {| POSTMAN_API_KEY := Some "PMAK-test";
     os_linesep := newline;
     http := scripted script;
     aws := fun _ _ => AwsNotInstalled |}.

Definition variant_A (name spec_yaml : string) : json :=
  JObj [("name", JStr name); ("type", JStr "openapi3");
        ("language", JStr "yaml"); ("schema", JStr spec_yaml)].

Definition variant_B (name spec_yaml : string) : json :=
  JObj [("specName", JStr name); ("specType", JStr "openapi3");
        ("filePath", JStr (name ++ ".yaml")); ("content", JStr spec_yaml)].

Definition variant_C (name spec_yaml : string) : json :=
  JObj [("spec", variant_A name spec_yaml)].

Definition json_id (id : string) : http_outcome :=
  Http2xx (BodyJson (JObj [("id", JStr id)])).

(** A local-mode command line: read [api.yaml], keep a copy in
    [openapi.yaml], sync under the given name. *)
Definition local_args (name : string) : Namespace :=
  {| workspace_id := "ws";
     local_spec := Some "api.yaml";
     region := None;
     rest_api_id := None;
     stage_name := None;
     spec_name := name;
     out := "openapi.yaml" |}.

(** An export-mode command line without [--stage-name]. *)
Definition export_args_without_stage : Namespace :=
  {| workspace_id := "ws";
     local_spec := None;
     region := Some "us-east-1";
     rest_api_id := Some "yvzmor0d68";
     stage_name := None;
     spec_name := "Y";
     out := "openapi.yaml" |}.

(** The answer of the hub to a list request. *)
Definition json_specs (refs : list (list (string * json))) : http_outcome :=
  Http2xx (BodyJson (JObj [("specs", JArr (map JObj refs))])).

Definition ref (name id : string) : list (string * json) :=
  [("id", JStr id); ("name", JStr name)].

(** The same machine without the key. *)
Definition without_key (script : list http_outcome) : environ :=
  {| POSTMAN_API_KEY := None;
     os_linesep := newline;
     http := scripted script;
     aws := fun _ _ => AwsNotInstalled |}.

(** A two-line document with a Windows line ending, and what a text-mode
    read makes of it. *)
Definition crlf_text : string :=
  String "a" (String CR (String LF (String "b" EmptyString))).

Definition lf_text : string :=
  String "a" (String LF (String "b" EmptyString)).

(** The exception [http_json] raises on a status outside 2xx. *)
Definition http_failed (code : Z) (url : fstring) (raw : string) : exn :=
  Exn RuntimeError
    ([Lit "HTTP "; FmtInt code; Lit " calling "] ++ url ++ [Lit ": "; Lit raw])
    (Some (Exn HTTPError [Lit "HTTP Error "; FmtInt code] None)).

(** ** Reading a whole run *)

(** A computation only appends to the trace, and what it appends satisfies
    [P]. *)
Definition adds {A} (P : list event -> Prop) (c : M A) : Prop :=
  forall e st, exists evs,
    trace (snd (c e st)) = (trace st ++ evs)%list /\ P evs.

(** A property of event lists that survives sequencing. *)
Definition sequential (P : list event -> Prop) : Prop :=
  P [] /\ forall evs evs', P evs -> P evs' -> P (evs ++ evs')%list.

(** A computation that issues at most [n] HTTP requests. *)
Definition requests_at_most {A} (n : nat) (c : M A) : Prop :=
  adds (fun evs => (List.length (requests evs) <= n)%nat) c.

(** A computation that never leaves through [SystemExit] and whose value,
    when it returns one, satisfies [V]. *)
Definition returns_only {A} (V : A -> Prop) (c : M A) : Prop :=
  forall e st,
    match fst (c e st) with
    | Ok a => V a
    | Raise _ => True
    | SystemExit _ => False
    end.

(** No HTTP request among these events; no external command among them. *)
Definition no_request (evs : list event) : Prop := requests evs = [].
Definition no_command (evs : list event) : Prop := commands evs = [].

(** The request is one [http_json] makes with this key: the three headers
    and the 60 second timeout. *)
Definition keyed (api_key : string) (r : request) : Prop :=
  req_headers r =
  [("X-Api-Key", api_key); ("Content-Type", "application/json");
   ("Accept", "application/json")] /\
  req_timeout r = 60.

(** Every request among these events is keyed. *)
Definition all_keyed (api_key : string) (evs : list event) : Prop :=
  Forall (keyed api_key) (requests evs).

(** The command line [aws_export_openapi] runs. *)
Definition export_command (region rest_api_id stage_name out_path : string)
    : list string :=
  ["aws"; "apigateway"; "get-export"; "--region"; region; "--rest-api-id";
   rest_api_id; "--stage-name"; stage_name; "--export-type"; "oas30";
   out_path].

(** The Windows line separator. *)
Definition crlf : string := String CR (String LF EmptyString).

(** A POSIX machine with the key set, where the [aws] command ends this way,
    in front of a scripted server. *)
Definition gateway (outcome : aws_outcome) (script : list http_outcome) : environ :=
  {| POSTMAN_API_KEY := Some "PMAK-test";
     os_linesep := newline;
     http := scripted script;
     aws := fun _ _ => outcome |}.

(** A complete export-mode command line. *)
Definition export_args : Namespace :=
  {| workspace_id := "ws";
     local_spec := None;
     region := Some "us-east-1";
     rest_api_id := Some "yvzmor0d68";
     stage_name := Some "dev";
     spec_name := "Y";
     out := "openapi.yaml" |}.

(** The line [aws_export_openapi] prints before it runs the command, and
    the state step 1 is in at that point in export mode. *)
Definition running (cmd : list string) : event :=
  EvPrint Stdout [Lit "[..] Running: "; Lit (String.concat " " cmd)].

Definition before_export (st : state) (cmd : list string) : state :=
  log st (export_banner ++ [running cmd])%list.

(** The exceptions of step 1. *)
Definition no_such_file (path : string) : exn :=
  Exn FileNotFoundError [Lit "[Errno 2] No such file or directory: "; Lit path] None.

Definition command_failed (cmd : list string) (code : Z) : exn :=
  Exn CalledProcessError
    [Lit "Command "; FmtStrs cmd; Lit " returned non-zero exit status ";
     FmtInt code] None.

(** A JSON value that is a [dict]. *)
Definition is_dict (j : json) : Prop := exists items, j = JObj items.
(** ** Results and states *)

Lemma log_nil st : log st [] = st.
Proof. destruct st as [tr files]. unfold log; simpl. by rewrite app_nil_r. Qed.

Lemma log_log st evs evs' : log (log st evs) evs' = log st (evs ++ evs')%list.
Proof. unfold log; simpl. by rewrite app_assoc. Qed.

Lemma requests_app tr tr' : requests (tr ++ tr') = (requests tr ++ requests tr')%list.
Proof.
  induction tr as [|ev tr IH]; simpl; [done|].
  destruct ev; simpl; by rewrite ?IH.
Qed.

Lemma commands_app tr tr' : commands (tr ++ tr') = (commands tr ++ commands tr')%list.
Proof.
  induction tr as [|ev tr IH]; simpl; [done|].
  destruct ev; simpl; by rewrite ?IH.
Qed.

Lemma writes_app tr tr' : writes (tr ++ tr') = (writes tr ++ writes tr')%list.
Proof.
  induction tr as [|ev tr IH]; simpl; [done|].
  destruct ev; simpl; by rewrite ?IH.
Qed.

(** ** One request *)

Lemma http_json_run method url api_key body e st :
  http_json method url api_key body e st =
  (read_response url (http e (trace st) (Request method url api_key body)),
   log st [EvHttp (Request method url api_key body)]).
Proof. reflexivity. Qed.

Lemma read_response_no_exit url outcome code :
  read_response url outcome <> SystemExit code.
Proof. destruct outcome as [[| |]| | |]; discriminate. Qed.

Lemma _extract_spec_id_no_exit resp code :
  _extract_spec_id resp <> SystemExit code.
Proof.
  unfold _extract_spec_id.
  repeat (case_match; try discriminate).
Qed.

Lemma create_attempt_run url api_key body e st :
  create_attempt url api_key body e st =
  (and_then (read_response url (http e (trace st) (Request "POST" url api_key (Some body))))
     _extract_spec_id,
   log st [EvHttp (Request "POST" url api_key (Some body))]).
Proof.
  unfold create_attempt, bind. rewrite http_json_run.
  by destruct (read_response _ _).
Qed.

Lemma update_attempt_run url api_key body e st :
  update_attempt url api_key body e st =
  (and_then (read_response url (http e (trace st) (Request "PUT" url api_key (Some body))))
     (fun _ => Ok tt),
   log st [EvHttp (Request "PUT" url api_key (Some body))]).
Proof.
  unfold update_attempt, bind. rewrite http_json_run.
  by destruct (read_response _ _).
Qed.

(** ** The variant loop

    [create_spec] and [update_spec] run the same loop: try the bodies in
    order, keep the last exception, stop at the first attempt that returns.
    The section proves what both need from the shape of the loop alone. *)
Section VariantLoop.
Context {A : Type}.
Variable attempt : json -> M A.
Variable req : json -> request.
Variable loop : list json -> option exn -> M A.
Variable aggregate : option exn -> exn.

Hypothesis loop_nil : forall last, loop [] last = raise (aggregate last).
Hypothesis loop_cons : forall body rest last,
  loop (body :: rest) last =
  try_except (attempt body) (fun x => loop rest (Some x)).
Hypothesis attempt_state : forall body e st,
  snd (attempt body e st) = log st [EvHttp (req body)].
Hypothesis attempt_no_exit : forall body e st code,
  fst (attempt body e st) <> SystemExit code.

Lemma attempt_cases body e st :
  (exists v, attempt body e st = (Ok v, log st [EvHttp (req body)])) \/
  (exists x, attempt body e st = (Raise x, log st [EvHttp (req body)])).
Proof.
  pose proof (attempt_state body e st) as Hst.
  pose proof (attempt_no_exit body e st) as Hne.
  destruct (attempt body e st) as [[v|x|code] st']; simpl in *; subst st'.
  - left; eauto.
  - right; eauto.
  - by destruct (Hne code).
Qed.

Lemma loop_step_ok body rest last e st v :
  fst (attempt body e st) = Ok v ->
  loop (body :: rest) last e st = (Ok v, log st [EvHttp (req body)]).
Proof.
  intros Hv. rewrite loop_cons. unfold try_except.
  destruct (attempt_cases body e st) as [[w Hw]|[x Hx]].
  - rewrite Hw in Hv |- *. simpl in Hv. by simplify_eq.
  - rewrite Hx in Hv. discriminate.
Qed.

Lemma loop_step_raise body rest last e st x :
  fst (attempt body e st) = Raise x ->
  loop (body :: rest) last e st =
  loop rest (Some x) e (log st [EvHttp (req body)]).
Proof.
  intros Hv. rewrite loop_cons. unfold try_except.
  destruct (attempt_cases body e st) as [[w Hw]|[y Hy]].
  - rewrite Hw in Hv. discriminate.
  - rewrite Hy in Hv |- *. simpl in Hv. by simplify_eq.
Qed.

Lemma answer_head e st body rest :
  answer attempt req e st (body :: rest) 0 body = fst (attempt body e st).
Proof. unfold answer; simpl. by rewrite log_nil. Qed.

Lemma answer_tail e st body rest j b :
  answer attempt req e st (body :: rest) (S j) b =
  answer attempt req e (log st [EvHttp (req body)]) rest j b.
Proof. unfold answer; simpl. by rewrite log_log. Qed.

(** First success wins: when attempt [k] (from 0) is the first that
    returns, the loop returns its value after exactly the first [k + 1]
    requests, whatever the later variants would have answered. *)
Lemma loop_first_success variants last e st k body v :
  variants !! k = Some body ->
  (forall j b, (j < k)%nat -> variants !! j = Some b ->
               ~ succeeded (answer attempt req e st variants j b)) ->
  answer attempt req e st variants k body = Ok v ->
  loop variants last e st = (Ok v, log st (sent req (take (S k) variants))).
Proof.
  revert last st k.
  induction variants as [|b0 rest IH]; intros last st k Hk Hbefore Hv.
  - done.
  - destruct k as [|k]; simpl in Hk.
    + simplify_eq. rewrite answer_head in Hv.
      rewrite (loop_step_ok _ _ _ _ _ _ Hv). done.
    + assert (exists x, fst (attempt b0 e st) = Raise x) as [x Hx].
      { destruct (attempt_cases b0 e st) as [[w Hw]|[x Hx]].
        - exfalso. apply (Hbefore 0%nat b0); [lia|done|].
          exists w. by rewrite answer_head, Hw.
        - exists x. by rewrite Hx. }
      rewrite (loop_step_raise _ _ _ _ _ _ Hx).
      rewrite (IH (Some x) (log st [EvHttp (req b0)]) k Hk).
      * by rewrite log_log.
      * intros j b Hj Hb. rewrite <- answer_tail.
        apply Hbefore; [lia|done].
      * by rewrite <- answer_tail.
Qed.

(** Exhaustion: when no attempt returns, every variant has been tried once
    and the loop raises the aggregate of the last exception only. *)
Lemma loop_all_fail front body last e st x :
  (forall j b, (front ++ [body])%list !! j = Some b ->
               ~ succeeded (answer attempt req e st (front ++ [body])%list j b)) ->
  answer attempt req e st (front ++ [body])%list (List.length front) body = Raise x ->
  loop (front ++ [body])%list last e st =
  (Raise (aggregate (Some x)), log st (sent req (front ++ [body])%list)).
Proof.
  revert last st.
  induction front as [|b0 front IH]; intros last st Hfail Hx; simpl in *.
  - rewrite answer_head in Hx.
    rewrite (loop_step_raise _ _ _ _ _ _ Hx), loop_nil. done.
  - assert (exists y, fst (attempt b0 e st) = Raise y) as [y Hy].
    { destruct (attempt_cases b0 e st) as [[w Hw]|[y Hy]].
      - exfalso. apply (Hfail 0%nat b0); [done|].
        exists w. by rewrite answer_head, Hw.
      - exists y. by rewrite Hy. }
    rewrite (loop_step_raise _ _ _ _ _ _ Hy).
    rewrite (IH (Some y) (log st [EvHttp (req b0)])).
    + by rewrite log_log.
    + intros j b Hb. rewrite <- answer_tail. by apply (Hfail (S j)).
    + by rewrite <- answer_tail.
Qed.

(** Every run of the loop tries a prefix of the variants, at least one
    when there is one, and every attempt that is followed by another one
    has raised an exception. *)
Lemma loop_prefix variants last e st :
  exists n, (n <= List.length variants)%nat /\
    (variants <> [] -> (1 <= n)%nat) /\
    snd (loop variants last e st) = log st (sent req (take n variants)) /\
    forall j b, (S j < n)%nat -> variants !! j = Some b ->
                exists x, answer attempt req e st variants j b = Raise x.
Proof.
  revert last st.
  induction variants as [|b0 rest IH]; intros last st.
  - exists 0%nat. rewrite loop_nil. simpl. rewrite log_nil.
    split; [lia|]. split; [done|]. split; [done|]. intros; lia.
  - destruct (attempt_cases b0 e st) as [[w Hw]|[x Hx]].
    + exists 1%nat. rewrite (loop_step_ok b0 rest last e st w) by by rewrite Hw.
      simpl. split; [lia|]. split; [done|]. split; [done|]. intros; lia.
    + rewrite (loop_step_raise b0 rest last e st x) by by rewrite Hx.
      destruct (IH (Some x) (log st [EvHttp (req b0)])) as (n & Hn & _ & Hst & Hpre).
      exists (S n). split; [simpl; lia|]. split; [lia|]. split.
      * rewrite Hst. simpl. by rewrite log_log.
      * intros [|j] b Hj Hb; simpl in Hb.
        -- simplify_eq. exists x. by rewrite answer_head, Hx.
        -- rewrite answer_tail. apply Hpre; [lia|done].
Qed.

(** Exhaustion, naming the last exception from the attempts themselves. *)
Lemma loop_exhausted front body last e st :
  (forall j b, (front ++ [body])%list !! j = Some b ->
               ~ succeeded (answer attempt req e st (front ++ [body])%list j b)) ->
  exists x,
    answer attempt req e st (front ++ [body])%list (List.length front) body = Raise x /\
    loop (front ++ [body])%list last e st =
    (Raise (aggregate (Some x)), log st (sent req (front ++ [body])%list)).
Proof.
  intros Hfail.
  assert (exists x, answer attempt req e st (front ++ [body])%list (List.length front) body
                    = Raise x) as [x Hx].
  { unfold answer.
    destruct (attempt_cases body e
                (log st (sent req (take (List.length front) (front ++ [body])%list))))
      as [[w Hw]|[x Hx]].
    - exfalso. apply (Hfail (List.length front) body).
      + by rewrite lookup_app_r, Nat.sub_diag by lia.
      + exists w. unfold answer. by rewrite Hw.
    - exists x. by rewrite Hx. }
  exists x. split; [done|]. by apply loop_all_fail.
Qed.
End VariantLoop.

(** *** The two instances *)

Lemma create_attempt_state url api_key body e st :
  snd (create_attempt url api_key body e st) = log st [EvHttp (post url api_key body)].
Proof. by rewrite create_attempt_run. Qed.

Lemma create_attempt_no_exit url api_key body e st code :
  fst (create_attempt url api_key body e st) <> SystemExit code.
Proof.
  rewrite create_attempt_run. simpl.
  destruct (read_response _ _) as [resp| |c] eqn:Hr; simpl; try discriminate.
  - apply _extract_spec_id_no_exit.
  - by apply read_response_no_exit in Hr.
Qed.

Lemma update_attempt_state url api_key body e st :
  snd (update_attempt url api_key body e st) = log st [EvHttp (put url api_key body)].
Proof. by rewrite update_attempt_run. Qed.

Lemma update_attempt_no_exit url api_key body e st code :
  fst (update_attempt url api_key body e st) <> SystemExit code.
Proof.
  rewrite update_attempt_run. simpl.
  destruct (read_response _ _) as [resp| |c] eqn:Hr; simpl; try discriminate.
  by apply read_response_no_exit in Hr.
Qed.


Lemma create_first_success url api_key tried variants last e st k body v :
  variants !! k = Some body ->
  (forall j b, (j < k)%nat -> variants !! j = Some b ->
               ~ succeeded (create_answer url api_key e st variants j b)) ->
  create_answer url api_key e st variants k body = Ok v ->
  create_spec_loop url api_key tried variants last e st =
  (Ok v, log st (sent (post url api_key) (take (S k) variants))).
Proof.
  apply (loop_first_success (create_attempt url api_key) (post url api_key)
           (create_spec_loop url api_key tried)).
  - reflexivity.
  - apply create_attempt_state.
  - apply create_attempt_no_exit.
Qed.

Lemma update_first_success url api_key spec_id variants last e st k body v :
  variants !! k = Some body ->
  (forall j b, (j < k)%nat -> variants !! j = Some b ->
               ~ succeeded (update_answer url api_key e st variants j b)) ->
  update_answer url api_key e st variants k body = Ok v ->
  update_spec_loop url api_key spec_id variants last e st =
  (Ok v, log st (sent (put url api_key) (take (S k) variants))).
Proof.
  apply (loop_first_success (update_attempt url api_key) (put url api_key)
           (update_spec_loop url api_key spec_id)).
  - reflexivity.
  - apply update_attempt_state.
  - apply update_attempt_no_exit.
Qed.

Lemma create_exhausted url api_key tried front body last e st :
  (forall j b, (front ++ [body])%list !! j = Some b ->
     ~ succeeded (create_answer url api_key e st (front ++ [body])%list j b)) ->
  exists x,
    create_answer url api_key e st (front ++ [body])%list (List.length front) body
    = Raise x /\
    create_spec_loop url api_key tried (front ++ [body])%list last e st =
    (Raise (create_failed tried (Some x)),
     log st (sent (post url api_key) (front ++ [body])%list)).
Proof.
  apply (loop_exhausted (create_attempt url api_key) (post url api_key)
           (create_spec_loop url api_key tried) (create_failed tried)).
  - reflexivity.
  - reflexivity.
  - apply create_attempt_state.
  - apply create_attempt_no_exit.
Qed.

Lemma update_exhausted url api_key spec_id front body last e st :
  (forall j b, (front ++ [body])%list !! j = Some b ->
     ~ succeeded (update_answer url api_key e st (front ++ [body])%list j b)) ->
  exists x,
    update_answer url api_key e st (front ++ [body])%list (List.length front) body
    = Raise x /\
    update_spec_loop url api_key spec_id (front ++ [body])%list last e st =
    (Raise (update_failed spec_id (Some x)),
     log st (sent (put url api_key) (front ++ [body])%list)).
Proof.
  apply (loop_exhausted (update_attempt url api_key) (put url api_key)
           (update_spec_loop url api_key spec_id) (update_failed spec_id)).
  - reflexivity.
  - reflexivity.
  - apply update_attempt_state.
  - apply update_attempt_no_exit.
Qed.

Lemma create_prefix url api_key tried variants last e st :
  exists n, (n <= List.length variants)%nat /\
    (variants <> [] -> (1 <= n)%nat) /\
    snd (create_spec_loop url api_key tried variants last e st) =
    log st (sent (post url api_key) (take n variants)) /\
    forall j b, (S j < n)%nat -> variants !! j = Some b ->
                exists x, create_answer url api_key e st variants j b = Raise x.
Proof.
  apply (loop_prefix (create_attempt url api_key) (post url api_key)
           (create_spec_loop url api_key tried) (create_failed tried)).
  - reflexivity.
  - reflexivity.
  - apply create_attempt_state.
  - apply create_attempt_no_exit.
Qed.

Lemma update_prefix url api_key spec_id variants last e st :
  exists n, (n <= List.length variants)%nat /\
    (variants <> [] -> (1 <= n)%nat) /\
    snd (update_spec_loop url api_key spec_id variants last e st) =
    log st (sent (put url api_key) (take n variants)) /\
    forall j b, (S j < n)%nat -> variants !! j = Some b ->
                exists x, update_answer url api_key e st variants j b = Raise x.
Proof.
  apply (loop_prefix (update_attempt url api_key) (put url api_key)
           (update_spec_loop url api_key spec_id) (update_failed spec_id)).
  - reflexivity.
  - reflexivity.
  - apply update_attempt_state.
  - apply update_attempt_no_exit.
Qed.

Lemma payload_variants_eq name spec_yaml :
  payload_variants name spec_yaml =
  [variant_A name spec_yaml; variant_B name spec_yaml; variant_C name spec_yaml].
Proof. reflexivity. Qed.

(** ** Running [main] step by step *)

Lemma print_then {A} text (k : M A) e st :
  (print text ;;; k) e st = k e (log st [EvPrint Stdout text]).
Proof. reflexivity. Qed.

Lemma print_err_then {A} text (k : M A) e st :
  (print_err text ;;; k) e st = k e (log st [EvPrint Stderr text]).
Proof. reflexivity. Qed.

Lemma bind_ok {A B} (c : M A) (k : A -> M B) e st a st' :
  c e st = (Ok a, st') -> bind c k e st = k a e st'.
Proof. unfold bind. by intros ->. Qed.

Lemma bind_raise {A B} (c : M A) (k : A -> M B) e st x st' :
  c e st = (Raise x, st') -> bind c k e st = (Raise x, st').
Proof. unfold bind. by intros ->. Qed.

Lemma bind_lift {A B} (r : result A) (k : A -> M B) e st :
  bind (lift r) k e st =
  match r with
  | Ok a => k a e st
  | Raise x => (Raise x, st)
  | SystemExit code => (SystemExit code, st)
  end.
Proof. by destruct r. Qed.

Lemma list_specs_run workspace_id api_key e st :
  list_specs workspace_id api_key e st =
  (and_then
     (read_response (create_url workspace_id)
        (http e (trace st) (list_request workspace_id api_key)))
     get_specs,
   log st [EvHttp (list_request workspace_id api_key)]).
Proof.
  unfold list_specs, bind. rewrite http_json_run.
  fold (create_url workspace_id). fold (list_request workspace_id api_key).
  by destruct (read_response _ _).
Qed.

(** [with_name] on a list of dicts is a filter. *)
Lemma with_name_dicts spec_name refs :
  with_name spec_name (map JObj refs) = Ok (named spec_name refs).
Proof.
  induction refs as [|s refs IH]; simpl; [done|].
  rewrite IH. unfold named. simpl. by destruct (eq_str _ _).
Qed.

(** Step 2 from the answer to the list request. *)
Lemma upsert_run args api_key spec_yaml e st :
  let get := list_request (workspace_id args) api_key in
  let st1 := log st (upsert_banner ++ [EvHttp get])%list in
  upsert args api_key spec_yaml e st =
  match
    and_then
      (and_then
         (and_then
            (read_response (create_url (workspace_id args))
               (http e (trace st ++ upsert_banner)%list get))
            get_specs)
         iterate)
      (with_name (spec_name args))
  with
  | Ok (first :: _) =>
      if truthy (dict_get "id" first) then
        update_path args api_key spec_yaml (dict_get "id" first) e st1
      else create_path args api_key spec_yaml e st1
  | Ok [] => create_path args api_key spec_yaml e st1
  | Raise x => (Raise x, st1)
  | SystemExit code => (SystemExit code, st1)
  end.
Proof.
  intros get st1. unfold upsert.
  rewrite !print_then, !log_log. simpl app.
  unfold bind at 1. rewrite list_specs_run.
  rewrite log_log. simpl app. simpl trace.
  change (trace st ++ _)%list with (trace st ++ upsert_banner)%list.
  fold get. change (log st _) with st1.
  destruct (read_response _ _) as [resp|x|code]; simpl; [|done|done].
  destruct (get_specs resp) as [specs|x|code]; simpl; [|done|done].
  rewrite bind_lift.
  destruct (iterate specs) as [items|x|code]; simpl; [|done|done].
  rewrite bind_lift.
  destruct (with_name _ items) as [[|first rest]|x|code]; try done.
  by destruct (truthy _).
Qed.

(** ** Computations that leave the files alone *)

Lemma keeps_ret {A} (a : A) : keeps_files (ret a).
Proof. by intros e st. Qed.

Lemma keeps_raise {A} x : keeps_files (@raise A x).
Proof. by intros e st. Qed.

Lemma keeps_lift {A} (r : result A) : keeps_files (lift r).
Proof. by intros e st. Qed.

Lemma keeps_print text : keeps_files (print text).
Proof.
  intros e st; simpl. split; [done|].
  rewrite writes_app; simpl. by rewrite app_nil_r.
Qed.

Lemma keeps_urlopen req : keeps_files (urlopen req).
Proof.
  intros e st; simpl. split; [done|].
  rewrite writes_app; simpl. by rewrite app_nil_r.
Qed.

Lemma keeps_bind {A B} (c : M A) (k : A -> M B) :
  keeps_files c -> (forall a, keeps_files (k a)) -> keeps_files (bind c k).
Proof.
  intros Hc Hk e st. unfold bind.
  destruct (Hc e st) as [Hfs Hw].
  destruct (c e st) as [[a|x|code] st']; simpl in *; [|done|done].
  destruct (Hk a e st') as [Hfs' Hw']. split; congruence.
Qed.

Lemma keeps_try_except {A} (c : M A) (h : exn -> M A) :
  keeps_files c -> (forall x, keeps_files (h x)) -> keeps_files (try_except c h).
Proof.
  intros Hc Hh e st. unfold try_except.
  destruct (Hc e st) as [Hfs Hw].
  destruct (c e st) as [[a|x|code] st']; simpl in *; [done| |done].
  destruct (Hh x e st') as [Hfs' Hw']. split; congruence.
Qed.

Create HintDb files.
#[local] Hint Resolve keeps_ret keeps_raise keeps_lift keeps_print keeps_urlopen : files.

Ltac keeps :=
  repeat first
    [ solve [auto with files]
    | apply keeps_bind; [|intros ?]
    | apply keeps_try_except; [|intros ?] ].

Lemma keeps_http_json method url api_key body :
  keeps_files (http_json method url api_key body).
Proof. unfold http_json. keeps. Qed.
#[local] Hint Resolve keeps_http_json : files.

Lemma keeps_create_spec_loop url api_key tried variants last :
  keeps_files (create_spec_loop url api_key tried variants last).
Proof.
  revert last. induction variants as [|body rest IH]; intros last; simpl.
  - auto with files.
  - unfold create_attempt. keeps.
Qed.

Lemma keeps_update_spec_loop url api_key spec_id variants last :
  keeps_files (update_spec_loop url api_key spec_id variants last).
Proof.
  revert last. induction variants as [|body rest IH]; intros last; simpl.
  - auto with files.
  - unfold update_attempt. keeps.
Qed.
#[local] Hint Resolve keeps_create_spec_loop keeps_update_spec_loop : files.

Lemma keeps_upsert args api_key spec_yaml :
  keeps_files (upsert args api_key spec_yaml).
Proof.
  unfold upsert, list_specs. keeps.
  match goal with |- keeps_files (match ?l with _ => _ end) => destruct l as [|first ?] end;
    [|destruct (truthy _)];
    unfold create_path, update_path, create_spec, update_spec; keeps.
Qed.

Lemma keeps_generate spec_id api_key : keeps_files (generate spec_id api_key).
Proof. unfold generate, generate_collection_from_spec. keeps. Qed.
#[local] Hint Resolve keeps_upsert keeps_generate : files.

Lemma keeps_sync_spec args api_key spec_yaml :
  keeps_files (sync_spec args api_key spec_yaml).
Proof. unfold sync_spec. keeps. Qed.

(** ** The first lines of [main] *)

Lemma truthy_str_Some o :
  truthy_str o = true -> exists s, o = Some s /\ s <> "".
Proof.
  destruct o as [s|]; simpl; [|done].
  intros Hs. exists s. split; [done|]. intros ->. done.
Qed.

Lemma main_without_key args e st :
  truthy_str (POSTMAN_API_KEY e) = false ->
  main args e st =
  (Ok 2, log st [EvPrint Stderr
                   [Lit "❌ Missing POSTMAN_API_KEY environment variable"]]).
Proof.
  intros Hkey. unfold main, bind at 1, os_environ_get_api_key.
  by rewrite Hkey.
Qed.

Lemma main_with_key args e st api_key :
  POSTMAN_API_KEY e = Some api_key -> api_key <> "" ->
  main args e st =
  bind (get_spec args) (fun spec_yaml => sync_spec args api_key spec_yaml) e st.
Proof.
  intros Hkey Hne. unfold main, bind at 1, os_environ_get_api_key.
  rewrite Hkey. simpl.
  by destruct (String.eqb_spec api_key "").
Qed.

Lemma missing_nonempty args :
  truthy_str (region args) = false \/
  truthy_str (rest_api_id args) = false \/
  truthy_str (stage_name args) = false ->
  missing args <> [].
Proof.
  unfold missing. simpl.
  destruct (truthy_str (region args)), (truthy_str (rest_api_id args)),
    (truthy_str (stage_name args)); simpl; intros [|[|]]; done.
Qed.

(** Export mode with an option missing stops at [parser.error]. *)
Lemma get_spec_missing args e st :
  truthy_str (local_spec args) = false ->
  missing args <> [] ->
  get_spec args e st =
  (SystemExit 2,
   log st (export_banner ++
           [EvPrint Stderr
              [Lit "error: ";
               Lit ("Missing required arguments for AWS export mode: "
                    ++ String.concat ", " (missing args)
                    ++ " (or provide --local-spec)")]])%list).
Proof.
  intros Hlocal Hmissing. unfold get_spec. rewrite print_then, Hlocal.
  unfold export_from_gateway. rewrite !print_then, !log_log. simpl app.
  destruct (missing args) as [|name names]; [done|].
  unfold bind at 1, parser_error. rewrite print_err_then, log_log. done.
Qed.

(** Local mode, the file is there. *)
Lemma get_spec_local args e st path content :
  local_spec args = Some path -> path <> "" ->
  fs st !! path = Some content ->
  let spec_yaml := universal_newlines content in
  let bytes := write_newlines (os_linesep e) spec_yaml in
  let loaded :=
    EvPrint Stdout [Lit "✅ Loaded spec → "; Lit path; Lit " (";
                    FmtInt (py_len spec_yaml); Lit " chars)"] in
  get_spec args e st =
  (Ok spec_yaml,
   if String.eqb path (out args) then log st (local_banner ++ [loaded])%list
   else
     {| trace := trace st ++ local_banner ++
                 [EvWrite (out args) bytes; loaded;
                  EvPrint Stdout [Lit "✅ Wrote copy → "; Lit (out args)]];
        fs := <[out args := bytes]> (fs st) |}).
Proof.
  intros Hlocal Hne Hfile spec_yaml bytes loaded.
  unfold get_spec. rewrite print_then, Hlocal. simpl.
  destruct (String.eqb_spec path "") as [|_]; [done|]. simpl.
  unfold load_local. rewrite !print_then, !log_log. simpl app.
  unfold bind at 1, read_text. simpl fs. rewrite Hfile.
  fold spec_yaml.
  destruct (String.eqb path (out args)); simpl.
  - unfold log, bind, ret, print, emit; simpl. by rewrite <- !app_assoc.
  - unfold log, bind, ret, print, emit, write_text; simpl. fold bytes.
    by rewrite <- !app_assoc.
Qed.

(** Reading without carriage returns changes nothing, and so does writing
    with ["\n"] as the line separator. *)
Lemma universal_newlines_no_CR s :
  occurs CR s = false -> universal_newlines s = s.
Proof.
  induction s as [|c s IH]; simpl; [done|].
  destruct (Ascii.eqb c CR); simpl; [done|].
  intros Hs. by rewrite IH.
Qed.

Lemma write_newlines_posix s : write_newlines newline s = s.
Proof.
  induction s as [|c s IH]; simpl; [done|].
  destruct (Ascii.eqb_spec c LF) as [->|]; simpl; by rewrite IH.
Qed.

(** ** Step 3 *)

Lemma generate_run spec_id api_key e st :
  let st3 := log st generate_banner in
  let req := generation_request spec_id api_key in
  generate spec_id api_key e st =
  match read_response (generation_url spec_id) (http e (trace st3) req) with
  | Ok (JObj items) =>
      (Ok tt,
       log st3 [EvHttp req;
                EvPrint Stdout
                  [Lit "✅ Generation request completed (response keys: ";
                   FmtStrs (sorted (map fst items)); Lit ")"]])
  | Ok _ =>
      (Raise (Exn AttributeError [Lit "object has no attribute 'keys'"] None),
       log st3 [EvHttp req])
  | Raise x => (Raise x, log st3 [EvHttp req])
  | SystemExit code => (SystemExit code, log st3 [EvHttp req])
  end.
Proof.
  intros st3 req. unfold generate.
  rewrite !print_then, !log_log. simpl app. fold generate_banner. fold st3.
  unfold bind at 1, generate_collection_from_spec. rewrite http_json_run.
  fold (generation_url spec_id). fold (post (generation_url spec_id) api_key (JObj [])).
  fold (generation_request spec_id api_key). fold req.
  destruct (read_response _ _) as [gen|x|code]; [|done|done].
  rewrite bind_lift.
  destruct gen; simpl; try done.
  unfold print, emit. simpl. unfold log. simpl. by rewrite <- app_assoc.
Qed.

(** [main] from a successful step 2 on. *)
Lemma main_after_upsert args e st api_key spec_yaml st1 spec_id st2 :
  POSTMAN_API_KEY e = Some api_key -> api_key <> "" ->
  get_spec args e st = (Ok spec_yaml, st1) ->
  upsert args api_key spec_yaml e st1 = (Ok spec_id, st2) ->
  let st3 := log st2 generate_banner in
  let req := generation_request spec_id api_key in
  match read_response (generation_url spec_id) (http e (trace st3) req) with
  | Ok (JObj items) =>
      fst (main args e st) = Ok 0 /\
      requests (trace (snd (main args e st))) = (requests (trace st2) ++ [req])%list
  | Ok _ =>
      main args e st =
      (Raise (Exn AttributeError [Lit "object has no attribute 'keys'"] None),
       log st3 [EvHttp req])
  | Raise x => main args e st = (Raise x, log st3 [EvHttp req])
  | SystemExit code => False
  end.
Proof.
  intros Hkey Hne Hspec Hupsert st3 req.
  assert (main args e st =
          match generate spec_id api_key e st2 with
          | (Ok _, st') =>
              (Ok 0,
               log st'
                 [EvPrint Stdout [Lit (newline ++ rule)];
                  EvPrint Stdout [Lit "✅ DONE - Ingestion complete"];
                  EvPrint Stdout [Lit rule];
                  EvPrint Stdout
                    [Lit "Next: Protect curated collections from regen drift."]])
          | (Raise x, st') => (Raise x, st')
          | (SystemExit code, st') => (SystemExit code, st')
          end) as Hmain.
  { rewrite (main_with_key args e st api_key Hkey Hne).
    rewrite (bind_ok _ _ _ _ _ _ Hspec). unfold sync_spec.
    rewrite (bind_ok _ _ _ _ _ _ Hupsert).
    unfold bind at 1.
    destruct (generate spec_id api_key e st2) as [[[]|x|code] st']; [|done|done].
    rewrite !print_then, !log_log. done. }
  rewrite generate_run in Hmain. fold st3 in Hmain. fold req in Hmain.
  destruct (read_response _ _) as [gen|x|code] eqn:Hr.
  - destruct gen; try done.
    rewrite Hmain. simpl. split; [done|].
    rewrite !requests_app. simpl. by rewrite !app_nil_r.
  - done.
  - by apply read_response_no_exit in Hr.
Qed.

(** ** The requests of the two branches of step 2 *)

Lemma requests_sent req bodies : requests (sent req bodies) = map req bodies.
Proof. induction bodies as [|b bodies IH]; simpl; by rewrite ?IH. Qed.

Lemma create_path_requests args api_key spec_yaml e st :
  exists n, (1 <= n <= 3)%nat /\
    requests (trace (snd (create_path args api_key spec_yaml e st))) =
    (requests (trace st)
       ++ map (post (create_url (workspace_id args)) api_key)
            (take n (payload_variants (spec_name args) spec_yaml)))%list.
Proof.
  destruct (create_prefix (create_url (workspace_id args)) api_key 3
              (payload_variants (spec_name args) spec_yaml) None e st)
    as (n & Hn & Hpos & Hst & _).
  exists n. split; [split; [by apply Hpos|exact Hn]|].
  unfold create_path, bind at 1, create_spec.
  fold (create_url (workspace_id args)). simpl List.length.
  destruct (create_spec_loop _ _ _ _ _ e st) as [[spec_id|x|code] st'];
    simpl in *; subst st'; simpl;
    rewrite !requests_app, ?requests_sent; simpl; by rewrite ?app_nil_r.
Qed.

Lemma update_path_requests args api_key spec_yaml spec_id e st :
  exists n, (1 <= n <= 3)%nat /\
    requests (trace (snd (update_path args api_key spec_yaml spec_id e st))) =
    (requests (trace st)
       ++ map (put (update_url spec_id) api_key)
            (take n (payload_variants (spec_name args) spec_yaml)))%list.
Proof.
  destruct (update_prefix (update_url spec_id) api_key spec_id
              (payload_variants (spec_name args) spec_yaml) None e st)
    as (n & Hn & Hpos & Hst & _).
  exists n. split; [split; [by apply Hpos|exact Hn]|].
  unfold update_path, bind at 1, update_spec.
  fold (update_url spec_id).
  destruct (update_spec_loop _ _ _ _ _ e st) as [[[]|x|code] st'];
    simpl in *; subst st'; simpl;
    rewrite !requests_app, ?requests_sent; simpl; by rewrite ?app_nil_r.
Qed.

(** The create branch returns what [create_spec] returns. *)
Lemma create_path_result args api_key spec_yaml e st :
  fst (create_path args api_key spec_yaml e st) =
  fst (create_spec (workspace_id args) api_key (spec_name args) spec_yaml e st).
Proof.
  unfold create_path, bind at 1.
  by destruct (create_spec _ _ _ _ e st) as [[spec_id|x|code] st'].
Qed.


(** ** The claims *)

(** C2, as the code has it.  In [create_spec], a variant succeeds when its
    request returns and an identifier can be extracted from the response: if
    variant [k] (counted from 1) is the first to succeed, exactly the first
    [k] requests are issued, the identifier of variant [k] is returned, and
    no later variant is tried, whatever it would have answered.  In
    [update_spec], a variant succeeds as soon as its request returns (no
    identifier is looked for, nothing is returned): if variant [k] is the
    first to succeed in that sense, exactly the first [k] requests are issued
    and no later variant is tried. *)
Theorem first_success_wins (e : environ) (st : state)
    (api_key name spec_yaml : string) (k : nat) (body : json) :
  let variants := payload_variants name spec_yaml in
  (1 <= k)%nat ->
  variants !! (k - 1)%nat = Some body ->
  (forall workspace_id v,
     let url := create_url workspace_id in
     (forall j b, (1 <= j < k)%nat -> variants !! (j - 1)%nat = Some b ->
        ~ succeeded (create_answer url api_key e st variants (j - 1) b)) ->
     create_answer url api_key e st variants (k - 1) body = Ok v ->
     create_spec workspace_id api_key name spec_yaml e st =
     (Ok v, log st (sent (post url api_key) (take k variants))) /\
     List.length (sent (post url api_key) (take k variants)) = k)
  /\
  (forall spec_id,
     let url := update_url spec_id in
     (forall j b, (1 <= j < k)%nat -> variants !! (j - 1)%nat = Some b ->
        ~ succeeded (update_answer url api_key e st variants (j - 1) b)) ->
     succeeded (update_answer url api_key e st variants (k - 1) body) ->
     update_spec spec_id api_key name spec_yaml e st =
     (Ok tt, log st (sent (put url api_key) (take k variants))) /\
     List.length (sent (put url api_key) (take k variants)) = k).
Proof.
  intros variants Hk Hbody.
  destruct k as [|k]; [lia|].
  replace (S k - 1)%nat with k in * by lia.
  assert (List.length (take (S k) variants) = S k) as Hlen.
  { apply lookup_lt_Some in Hbody. rewrite length_take. lia. }
  split.
  - intros workspace_id v url Hbefore Hv. split.
    + unfold create_spec. eapply create_first_success; [exact Hbody| |exact Hv].
      intros j b Hj Hb. specialize (Hbefore (S j) b).
      replace (S j - 1)%nat with j in Hbefore by lia.
      apply Hbefore; [lia|done].
    + unfold sent. by rewrite length_map.
  - intros spec_id url Hbefore [[] Hv]. split.
    + unfold update_spec. eapply update_first_success; [exact Hbody| |exact Hv].
      intros j b Hj Hb. specialize (Hbefore (S j) b).
      replace (S j - 1)%nat with j in Hbefore by lia.
      apply Hbefore; [lia|done].
    + unfold sent. by rewrite length_map.
Qed.

(** C2 at work: the server refuses variant A with a 400 and accepts variant
    B; both executors stop after two requests. *)
Lemma first_success_wins_witness :
  let e := posix [HttpStatus 400 "bad request";
                  Http2xx (BodyJson (JObj [("spec", JObj [("id", JStr "s1")])]))] in
  create_spec "ws" "PMAK-test" "Y" "doc" e (initial ∅) =
  (Ok (JStr "s1"),
   log (initial ∅)
     [EvHttp (post (create_url "ws") "PMAK-test" (variant_A "Y" "doc"));
      EvHttp (post (create_url "ws") "PMAK-test" (variant_B "Y" "doc"))]) /\
  update_spec (JStr "s1") "PMAK-test" "Y" "doc" e (initial ∅) =
  (Ok tt,
   log (initial ∅)
     [EvHttp (put (update_url (JStr "s1")) "PMAK-test" (variant_A "Y" "doc"));
      EvHttp (put (update_url (JStr "s1")) "PMAK-test" (variant_B "Y" "doc"))]).
Proof.
  intros e.
  destruct (first_success_wins e (initial ∅) "PMAK-test" "Y" "doc" 2
              (variant_B "Y" "doc")) as [Hcreate Hupdate];
    [lia | reflexivity |].
  split.
  - apply (Hcreate "ws" (JStr "s1")); [|reflexivity].
    intros j b Hj Hb. assert (j = 1%nat) as -> by lia.
    simpl in Hb. injection Hb as <-. intros [v Hv]. discriminate Hv.
  - apply (Hupdate (JStr "s1")); [|by exists tt].
    intros j b Hj Hb. assert (j = 1%nat) as -> by lia.
    simpl in Hb. injection Hb as <-. intros [v Hv]. discriminate Hv.
Defined.

(** C2 as stated fails for [update_spec].  The server accepts variant A with
    an empty body and would answer variant B with an identifier: variant 2 is
    the first whose request succeeds and yields an extractable identifier,
    yet one request is issued, not two, and no identifier is returned. *)
Lemma update_stops_at_first_response :
  let e := posix [Http2xx BodyEmpty; json_id "a"] in
  let url := update_url (JStr "a") in
  let A := variant_A "Y" "doc" in
  let B := variant_B "Y" "doc" in
  ~ succeeded (fst (put_with_identifier url "PMAK-test" A e (initial ∅))) /\
  fst (put_with_identifier url "PMAK-test" B e
         (log (initial ∅) [EvHttp (put url "PMAK-test" A)])) = Ok (JStr "a") /\
  update_spec (JStr "a") "PMAK-test" "Y" "doc" e (initial ∅) =
  (Ok tt, log (initial ∅) [EvHttp (put url "PMAK-test" A)]) /\
  List.length (requests (trace (snd (update_spec (JStr "a") "PMAK-test" "Y" "doc"
                                       e (initial ∅))))) = 1%nat.
Proof.
  intros e url A B. split; [|split; [|split]].
  - intros [v Hv]. discriminate Hv.
  - reflexivity.
  - reflexivity.
  - reflexivity.
Qed.

(** C3.  When none of the three variants succeeds, [create_spec] and
    [update_spec] each issue exactly the three requests, one per variant in
    order, and raise one [RuntimeError] whose message and cause are built
    from the exception of the third attempt alone; the exceptions of the
    first two attempts appear nowhere in it. *)
Theorem all_variants_fail (e : environ) (st : state)
    (api_key name spec_yaml : string) :
  let variants := payload_variants name spec_yaml in
  (forall workspace_id,
     let url := create_url workspace_id in
     (forall j b, variants !! j = Some b ->
        ~ succeeded (create_answer url api_key e st variants j b)) ->
     exists x,
       create_answer url api_key e st variants 2 (variant_C name spec_yaml)
       = Raise x /\
       create_spec workspace_id api_key name spec_yaml e st =
       (Raise (Exn RuntimeError
                 [Lit "Failed to create spec (tried "; FmtInt 3;
                  Lit " payloads): "; FmtExn (Some x)]
                 (Some x)),
        log st (sent (post url api_key) variants)))
  /\
  (forall spec_id,
     let url := update_url spec_id in
     (forall j b, variants !! j = Some b ->
        ~ succeeded (update_answer url api_key e st variants j b)) ->
     exists x,
       update_answer url api_key e st variants 2 (variant_C name spec_yaml)
       = Raise x /\
       update_spec spec_id api_key name spec_yaml e st =
       (Raise (Exn RuntimeError
                 [Lit "Failed to update spec "; FmtJson spec_id; Lit ": ";
                  FmtExn (Some x)]
                 (Some x)),
        log st (sent (put url api_key) variants)))
  /\
  List.length variants = 3%nat.
Proof.
  intros variants. split; [|split; [|reflexivity]].
  - intros workspace_id url Hfail.
    apply (create_exhausted url api_key 3
             [variant_A name spec_yaml; variant_B name spec_yaml]
             (variant_C name spec_yaml) None e st Hfail).
  - intros spec_id url Hfail.
    apply (update_exhausted url api_key spec_id
             [variant_A name spec_yaml; variant_B name spec_yaml]
             (variant_C name spec_yaml) None e st Hfail).
Qed.

(** C3 at work: the server answers 400, 404 and 500; the aggregate error
    carries the 500. *)
Lemma all_variants_fail_witness :
  let e := posix [HttpStatus 400 "a"; HttpStatus 404 "b"; HttpStatus 500 "c"] in
  let variants := payload_variants "Y" "doc" in
  (exists x,
     create_answer (create_url "ws") "PMAK-test" e (initial ∅) variants 2
       (variant_C "Y" "doc") = Raise x /\
     create_spec "ws" "PMAK-test" "Y" "doc" e (initial ∅) =
     (Raise (Exn RuntimeError
               [Lit "Failed to create spec (tried "; FmtInt 3;
                Lit " payloads): "; FmtExn (Some x)]
               (Some x)),
      log (initial ∅) (sent (post (create_url "ws") "PMAK-test") variants))) /\
  (exists x,
     update_answer (update_url (JStr "s1")) "PMAK-test" e (initial ∅) variants 2
       (variant_C "Y" "doc") = Raise x /\
     update_spec (JStr "s1") "PMAK-test" "Y" "doc" e (initial ∅) =
     (Raise (Exn RuntimeError
               [Lit "Failed to update spec "; FmtJson (JStr "s1"); Lit ": ";
                FmtExn (Some x)]
               (Some x)),
      log (initial ∅) (sent (put (update_url (JStr "s1")) "PMAK-test") variants))).
Proof.
  intros e variants.
  destruct (all_variants_fail e (initial ∅) "PMAK-test" "Y" "doc")
    as (Hcreate & Hupdate & _).
  split.
  - apply (Hcreate "ws").
    intros [|[|[|j]]] b Hb [v Hv]; simpl in Hb; try discriminate Hb;
      injection Hb as <-; discriminate Hv.
  - apply (Hupdate (JStr "s1")).
    intros [|[|[|j]]] b Hb [v Hv]; simpl in Hb; try discriminate Hb;
      injection Hb as <-; discriminate Hv.
Defined.

(** C4, as the code has it.  A run of [create_spec] or of [update_spec]
    issues the requests of the first [n] variants, in order, for some [n]
    from 1 to 3; every attempt that is followed by another one has raised an
    exception, so no variant is tried after one that succeeded.  A timeout
    is such an exception: it leaves [http_json] as a plain [TimeoutError],
    is caught by the loop like any other failure, and the next variant is
    tried with it as the last error. *)
Theorem next_variant_only_after_exception (e : environ) (st : state)
    (workspace_id api_key name spec_yaml : string) (spec_id : json) :
  let timed_out := Exn TimeoutError [Lit "timed out"] None in
  let variants := payload_variants name spec_yaml in
  let url := create_url workspace_id in
  let url' := update_url spec_id in
  (exists n, (1 <= n <= 3)%nat /\
     snd (create_spec workspace_id api_key name spec_yaml e st) =
     log st (sent (post url api_key) (take n variants)) /\
     (forall j b, (S j < n)%nat -> variants !! j = Some b ->
        exists x, create_answer url api_key e st variants j b = Raise x) /\
     (forall j b v, variants !! j = Some b ->
        create_answer url api_key e st variants j b = Ok v -> (n <= S j)%nat))
  /\
  (forall tried body rest last,
     http e (trace st) (post url api_key body) = HttpTimeout ->
     fst (http_json "POST" url api_key (Some body) e st) = Raise timed_out /\
     create_spec_loop url api_key tried (body :: rest) last e st =
     create_spec_loop url api_key tried rest (Some timed_out) e
       (log st [EvHttp (post url api_key body)]))
  /\
  (exists n, (1 <= n <= 3)%nat /\
     snd (update_spec spec_id api_key name spec_yaml e st) =
     log st (sent (put url' api_key) (take n variants)) /\
     (forall j b, (S j < n)%nat -> variants !! j = Some b ->
        exists x, update_answer url' api_key e st variants j b = Raise x) /\
     (forall j b v, variants !! j = Some b ->
        update_answer url' api_key e st variants j b = Ok v -> (n <= S j)%nat))
  /\
  (forall body rest last,
     http e (trace st) (put url' api_key body) = HttpTimeout ->
     fst (http_json "PUT" url' api_key (Some body) e st) = Raise timed_out /\
     update_spec_loop url' api_key spec_id (body :: rest) last e st =
     update_spec_loop url' api_key spec_id rest (Some timed_out) e
       (log st [EvHttp (put url' api_key body)])).
Proof.
  intros timed_out variants url url'. split; [|split; [|split]].
  - destruct (create_prefix url api_key 3 variants None e st)
      as (n & Hn & Hpos & Hst & Hraised).
    exists n. split; [|split; [|split]].
    + split; [by apply Hpos|exact Hn].
    + exact Hst.
    + exact Hraised.
    + intros j b v Hb Hv.
      destruct (decide (n <= S j)%nat) as [|Hlt]; [done|].
      destruct (Hraised j b) as [x Hx]; [lia|done|]. congruence.
  - intros tried body rest last Htimeout. split.
    + rewrite http_json_run. simpl. fold (post url api_key body).
      by rewrite Htimeout.
    + apply (loop_step_raise (create_attempt url api_key) (post url api_key)
               (create_spec_loop url api_key tried)).
      * reflexivity.
      * apply create_attempt_state.
      * apply create_attempt_no_exit.
      * rewrite create_attempt_run. simpl. fold (post url api_key body).
        by rewrite Htimeout.
  - destruct (update_prefix url' api_key spec_id variants None e st)
      as (n & Hn & Hpos & Hst & Hraised).
    exists n. split; [|split; [|split]].
    + split; [by apply Hpos|exact Hn].
    + exact Hst.
    + exact Hraised.
    + intros j b v Hb Hv.
      destruct (decide (n <= S j)%nat) as [|Hlt]; [done|].
      destruct (Hraised j b) as [x Hx]; [lia|done|]. congruence.
  - intros body rest last Htimeout. split.
    + rewrite http_json_run. simpl. fold (put url' api_key body).
      by rewrite Htimeout.
    + apply (loop_step_raise (update_attempt url' api_key) (put url' api_key)
               (update_spec_loop url' api_key spec_id)).
      * reflexivity.
      * apply update_attempt_state.
      * apply update_attempt_no_exit.
      * rewrite update_attempt_run. simpl. fold (put url' api_key body).
        by rewrite Htimeout.
Qed.

(** C4 at work: the request of variant A times out. *)
Lemma next_variant_only_after_exception_witness :
  let e := posix [HttpTimeout; json_id "s1"] in
  let url := create_url "ws" in
  create_spec_loop url "PMAK-test" 3 (payload_variants "Y" "doc") None e (initial ∅) =
  create_spec_loop url "PMAK-test" 3
    [variant_B "Y" "doc"; variant_C "Y" "doc"]
    (Some (Exn TimeoutError [Lit "timed out"] None)) e
    (log (initial ∅) [EvHttp (post url "PMAK-test" (variant_A "Y" "doc"))]).
Proof.
  intros e url.
  destruct (next_variant_only_after_exception e (initial ∅) "ws" "PMAK-test" "Y" "doc"
              (JStr "s1"))
    as (_ & Htimeout & _).
  apply (Htimeout 3 (variant_A "Y" "doc")
           [variant_B "Y" "doc"; variant_C "Y" "doc"] None).
  reflexivity.
Defined.

(** C4 as stated fails: a timeout is not surfaced.  The request of variant A
    times out, so whether it created a spec is unknown; the loop goes on to
    variant B and [create_spec] returns normally. *)
Lemma timeout_tries_next_variant :
  let e := posix [HttpTimeout; json_id "s1"] in
  let url := create_url "ws" in
  http e [] (post url "PMAK-test" (variant_A "Y" "doc")) = HttpTimeout /\
  create_spec "ws" "PMAK-test" "Y" "doc" e (initial ∅) =
  (Ok (JStr "s1"),
   log (initial ∅)
     [EvHttp (post url "PMAK-test" (variant_A "Y" "doc"));
      EvHttp (post url "PMAK-test" (variant_B "Y" "doc"))]).
Proof. intros e url. split; reflexivity. Qed.




(** C1, as the code has it.  Let the list request return the specs [refs].
    If none of them has the target name, step 2 takes the create path.  If
    some have, the first of them in list order decides: when its ["id"] is
    there and true (not empty, not null), step 2 takes the update path with
    that id, never the id of a later match; when it is not, step 2 takes the
    create path. *)
Theorem upsert_decision (args : Namespace) (api_key spec_yaml : string)
    (e : environ) (st : state) (answer : list (string * json))
    (refs : list (list (string * json))) :
  let get := list_request (workspace_id args) api_key in
  let st1 := log st (upsert_banner ++ [EvHttp get])%list in
  let existing := named (spec_name args) refs in
  http e (trace st ++ upsert_banner)%list get = Http2xx (BodyJson (JObj answer)) ->
  dict_lookup "specs" answer = Some (JArr (map JObj refs)) ->
  (existing = [] ->
   upsert args api_key spec_yaml e st = create_path args api_key spec_yaml e st1) /\
  (forall first later, existing = first :: later ->
     truthy (dict_get "id" first) = true ->
     upsert args api_key spec_yaml e st =
     update_path args api_key spec_yaml (dict_get "id" first) e st1) /\
  (forall first later, existing = first :: later ->
     truthy (dict_get "id" first) = false ->
     upsert args api_key spec_yaml e st = create_path args api_key spec_yaml e st1).
Proof.
  intros get st1 existing Hget Hspecs.
  pose proof (upsert_run args api_key spec_yaml e st) as Hrun.
  simpl in Hrun. fold get in Hrun. fold st1 in Hrun.
  rewrite Hget in Hrun. simpl in Hrun. rewrite Hspecs in Hrun. simpl in Hrun.
  rewrite with_name_dicts in Hrun. fold existing in Hrun.
  split; [|split].
  - intros Hnone. by rewrite Hnone in Hrun.
  - intros first later Hsome Hid. by rewrite Hsome, Hid in Hrun.
  - intros first later Hsome Hid. by rewrite Hsome, Hid in Hrun.
Qed.

(** C1 at work: two specs named "Y", with ids "a" and "b"; the update goes
    to "a". *)
Lemma upsert_decision_witness :
  let e := posix [json_specs [ref "Y" "a"; ref "Y" "b"]; Http2xx BodyEmpty] in
  let args := local_args "Y" in
  upsert args "PMAK-test" "doc" e (initial ∅) =
  update_path args "PMAK-test" "doc" (JStr "a") e
    (log (initial ∅) (upsert_banner ++ [EvHttp (list_request "ws" "PMAK-test")])%list)
  /\
  requests (trace (snd (upsert args "PMAK-test" "doc" e (initial ∅)))) =
  [list_request "ws" "PMAK-test";
   put (update_url (JStr "a")) "PMAK-test" (variant_A "Y" "doc")].
Proof.
  intros e args.
  destruct (upsert_decision args "PMAK-test" "doc" e (initial ∅)
              [("specs", JArr (map JObj [ref "Y" "a"; ref "Y" "b"]))]
              [ref "Y" "a"; ref "Y" "b"])
    as (_ & Hupdate & _); [reflexivity|reflexivity|].
  split.
  - apply (Hupdate (ref "Y" "a") [ref "Y" "b"]); reflexivity.
  - reflexivity.
Defined.

(** C1 as stated fails: one spec has the target name, but its entry carries
    no id, and the run creates a second spec instead of updating. *)
Lemma match_without_id_is_created :
  let e := posix [json_specs [[("name", JStr "Y")]]; json_id "new"] in
  let args := local_args "Y" in
  named (spec_name args) [[("name", JStr "Y")]] = [[("name", JStr "Y")]] /\
  fst (upsert args "PMAK-test" "doc" e (initial ∅)) = Ok (JStr "new") /\
  requests (trace (snd (upsert args "PMAK-test" "doc" e (initial ∅)))) =
  [list_request "ws" "PMAK-test";
   post (create_url "ws") "PMAK-test" (variant_A "Y" "doc")].
Proof. intros e args. split; [|split]; reflexivity. Qed.

(** C10.  When the list request returns a JSON object without a ["specs"]
    key, [list_specs] returns the empty list and step 2 takes the create
    path: it calls [create_spec], so that the list request is followed by
    POST requests to the create URL of the workspace, one per variant tried
    and at least one, and step 2 ends as [create_spec] ends. *)
Theorem missing_specs_key_creates (args : Namespace) (api_key spec_yaml : string)
    (e : environ) (st : state) (answer : list (string * json)) :
  let get := list_request (workspace_id args) api_key in
  let st1 := log st (upsert_banner ++ [EvHttp get])%list in
  let variants := payload_variants (spec_name args) spec_yaml in
  http e (trace st ++ upsert_banner)%list get = Http2xx (BodyJson (JObj answer)) ->
  dict_lookup "specs" answer = None ->
  list_specs (workspace_id args) api_key e (log st upsert_banner) = (Ok (JArr []), st1) /\
  upsert args api_key spec_yaml e st = create_path args api_key spec_yaml e st1 /\
  fst (upsert args api_key spec_yaml e st) =
  fst (create_spec (workspace_id args) api_key (spec_name args) spec_yaml e st1) /\
  exists n, (1 <= n <= 3)%nat /\
    requests (trace (snd (upsert args api_key spec_yaml e st))) =
    (requests (trace st)
       ++ get :: map (post (create_url (workspace_id args)) api_key)
                   (take n variants))%list.
Proof.
  intros get st1 variants Hget Hspecs.
  assert (upsert args api_key spec_yaml e st =
          create_path args api_key spec_yaml e st1) as Hpath.
  { pose proof (upsert_run args api_key spec_yaml e st) as Hrun.
    simpl in Hrun. fold get in Hrun. fold st1 in Hrun.
    rewrite Hget in Hrun. simpl in Hrun. by rewrite Hspecs in Hrun. }
  split; [|split; [exact Hpath|split]].
  - rewrite list_specs_run. simpl trace. fold get. rewrite Hget. simpl.
    rewrite Hspecs. unfold st1. by rewrite log_log.
  - rewrite Hpath. apply create_path_result.
  - destruct (create_path_requests args api_key spec_yaml e st1) as (n & Hn & Hreq).
    exists n. split; [exact Hn|]. rewrite Hpath, Hreq.
    unfold st1. simpl. rewrite !requests_app. simpl.
    by rewrite <- app_assoc.
Qed.

(** C10 at work: the hub answers the list request with an error object under
    a 200; a POST of variant A follows and the new id comes back. *)
Lemma missing_specs_key_creates_witness :
  let e := posix [Http2xx (BodyJson (JObj [("error", JStr "none")])); json_id "new"] in
  let args := local_args "Y" in
  fst (upsert args "PMAK-test" "doc" e (initial ∅)) = Ok (JStr "new") /\
  requests (trace (snd (upsert args "PMAK-test" "doc" e (initial ∅)))) =
  [list_request "ws" "PMAK-test";
   post (create_url "ws") "PMAK-test" (variant_A "Y" "doc")].
Proof.
  intros e args.
  destruct (missing_specs_key_creates args "PMAK-test" "doc" e (initial ∅)
              [("error", JStr "none")])
    as (_ & _ & Hresult & n & Hn & Hrequests); [reflexivity|reflexivity|].
  split.
  - rewrite Hresult. reflexivity.
  - reflexivity.
Defined.

(** C7.  Without the credential environment variable [main] prints one line
    on stderr and returns 2: the process exits with status 2, and the run
    has issued no HTTP request and run no external command. *)
Theorem missing_credential_exits_2 (args : Namespace) (e : environ) (st : state) :
  POSTMAN_API_KEY e = None ->
  main args e st =
  (Ok 2, log st [EvPrint Stderr
                   [Lit "❌ Missing POSTMAN_API_KEY environment variable"]]) /\
  exit_status (fst (main args e st)) = 2 /\
  requests (trace (snd (main args e st))) = requests (trace st) /\
  commands (trace (snd (main args e st))) = commands (trace st).
Proof.
  intros Hkey.
  rewrite (main_without_key args e st) by by rewrite Hkey.
  simpl. rewrite requests_app, commands_app. simpl.
  by rewrite !app_nil_r.
Qed.

(** C7 at work: a local-mode run on a machine without the key. *)
Lemma missing_credential_exits_2_witness :
  exit_status (fst (main (local_args "Y") (without_key []) (initial ∅))) = 2 /\
  requests (trace (snd (main (local_args "Y") (without_key []) (initial ∅)))) = [].
Proof.
  destruct (missing_credential_exits_2 (local_args "Y") (without_key []) (initial ∅))
    as (_ & Hexit & Hrequests & _); [reflexivity|].
  split; [exact Hexit|exact Hrequests].
Defined.

(** C8.  In export mode (no local spec given), when the region, the REST API
    id or the stage is not set, the process exits with status 2 having
    issued no HTTP request and run no external command; once the key is
    there, it leaves through [parser.error], which names the options that
    are missing. *)
Theorem export_mode_requires_options (args : Namespace) (e : environ) (st : state) :
  truthy_str (local_spec args) = false ->
  truthy_str (region args) = false \/
  truthy_str (rest_api_id args) = false \/
  truthy_str (stage_name args) = false ->
  exit_status (fst (main args e st)) = 2 /\
  requests (trace (snd (main args e st))) = requests (trace st) /\
  commands (trace (snd (main args e st))) = commands (trace st) /\
  (truthy_str (POSTMAN_API_KEY e) = true ->
   main args e st =
   (SystemExit 2,
    log st (export_banner ++
            [EvPrint Stderr
               [Lit "error: ";
                Lit ("Missing required arguments for AWS export mode: "
                     ++ String.concat ", " (missing args)
                     ++ " (or provide --local-spec)")]])%list)).
Proof.
  intros Hlocal Hunset.
  pose proof (missing_nonempty args Hunset) as Hmissing.
  destruct (truthy_str (POSTMAN_API_KEY e)) eqn:Hkey.
  - destruct (truthy_str_Some _ Hkey) as (api_key & Hsome & Hne).
    rewrite (main_with_key args e st api_key Hsome Hne).
    unfold bind. rewrite (get_spec_missing args e st Hlocal Hmissing).
    simpl. rewrite requests_app, commands_app. simpl.
    by rewrite !app_nil_r.
  - rewrite (main_without_key args e st Hkey).
    simpl. rewrite requests_app, commands_app. simpl.
    by rewrite !app_nil_r.
Qed.

(** C8 at work: export mode without [--stage-name]. *)
Lemma export_mode_requires_options_witness :
  let run := main export_args_without_stage (posix []) (initial ∅) in
  fst run = SystemExit 2 /\ requests (trace (snd run)) = [] /\
  commands (trace (snd run)) = [].
Proof.
  destruct (export_mode_requires_options export_args_without_stage (posix [])
              (initial ∅))
    as (_ & Hrequests & Hcommands & Hexit);
    [reflexivity | right; right; reflexivity |].
  split; [|split].
  - by rewrite Hexit.
  - exact Hrequests.
  - exact Hcommands.
Defined.

(** C5, as the code has it.  In local mode the file is read as text and,
    when the output path is another path, written as text: what ends up
    under the output path is the input with every ["\r\n"] and lone ["\r"]
    turned into ["\n"] and every ["\n"] then written as the line separator
    of the platform.  Where that separator is ["\n"] and the input holds no
    ["\r"], the copy equals the input byte for byte.  When the two paths are
    the same string nothing is written and the files are as they were. *)
Theorem local_spec_copy (args : Namespace) (e : environ) (st : state)
    (path content : string) :
  truthy_str (POSTMAN_API_KEY e) = true ->
  local_spec args = Some path -> path <> "" ->
  fs st !! path = Some content ->
  let st' := snd (main args e st) in
  let copy := write_newlines (os_linesep e) (universal_newlines content) in
  (path <> out args ->
   fs st' !! out args = Some copy /\
   writes (trace st') = (writes (trace st) ++ [(out args, copy)])%list) /\
  (path = out args ->
   fs st' = fs st /\ writes (trace st') = writes (trace st)) /\
  (os_linesep e = newline -> occurs CR content = false -> copy = content).
Proof.
  intros Hkey Hlocal Hne Hfile st' copy.
  destruct (truthy_str_Some _ Hkey) as (api_key & Hsome & Hkne).
  pose proof (get_spec_local args e st path content Hlocal Hne Hfile) as Hspec.
  simpl in Hspec. fold copy in Hspec.
  assert (exists st1, get_spec args e st = (Ok (universal_newlines content), st1) /\
            fs st' = fs st1 /\ writes (trace st') = writes (trace st1))
    as (st1 & Hst1 & Hfs & Hwrites).
  { eexists. split; [exact Hspec|]. unfold st'.
    rewrite (main_with_key args e st api_key Hsome Hkne).
    rewrite (bind_ok _ _ _ _ _ _ Hspec).
    apply keeps_sync_spec. }
  rewrite Hspec in Hst1. injection Hst1 as <-.
  split; [|split].
  - intros Hother. rewrite Hfs, Hwrites.
    destruct (String.eqb_spec path (out args)) as [|_]; [done|]. simpl.
    split; [by rewrite lookup_insert_eq|].
    rewrite !writes_app. done.
  - intros Hsame. rewrite Hfs, Hwrites.
    destruct (String.eqb_spec path (out args)) as [_|]; [|done]. simpl.
    split; [done|]. rewrite !writes_app. simpl. by rewrite ?app_nil_r.
  - intros Hsep Hcr. unfold copy.
    by rewrite Hsep, write_newlines_posix, universal_newlines_no_CR.
Qed.

(** C5 at work: a document without carriage returns, copied on a POSIX
    machine. *)
Lemma local_spec_copy_witness :
  let e := posix [json_specs []; json_id "s1"; Http2xx BodyEmpty] in
  let st := initial {[ "api.yaml" := "openapi: 3.0.0" ]} in
  fs (snd (main (local_args "Y") e st)) !! "openapi.yaml" = Some "openapi: 3.0.0".
Proof.
  intros e st.
  destruct (local_spec_copy (local_args "Y") e st "api.yaml" "openapi: 3.0.0")
    as (Hcopy & _ & Hsame); [reflexivity|reflexivity|discriminate|reflexivity|].
  destruct Hcopy as [Hfile _]; [discriminate|].
  rewrite Hsame in Hfile; [exact Hfile|reflexivity|reflexivity].
Defined.

(** C5 as stated fails: a file with a Windows line ending is not copied byte
    for byte; the copy has a bare ["\n"]. *)
Lemma crlf_is_not_copied_byte_for_byte :
  let e := posix [json_specs []; json_id "s1"; Http2xx BodyEmpty] in
  let st := initial {[ "api.yaml" := crlf_text ]} in
  fs st !! "api.yaml" = Some crlf_text /\
  fs (snd (main (local_args "Y") e st)) !! "openapi.yaml" = Some lf_text /\
  lf_text <> crlf_text.
Proof. intros e st. split; [|split]; [reflexivity|reflexivity|discriminate]. Qed.

(** C6, as the code has it.  After a successful create or update the
    generation request is always issued, it is the last request of the run
    (nothing is rolled back), and its outcome decides how the run ends: an
    exception of the request leaves [main] uncaught, as an exception of
    create or update does, and the process exits with status 0 exactly when
    the request returned a JSON object. *)
Theorem generation_gates_exit (args : Namespace) (e : environ) (st : state)
    (api_key spec_yaml : string) (st1 : state) (spec_id : json) (st2 : state) :
  POSTMAN_API_KEY e = Some api_key -> api_key <> "" ->
  get_spec args e st = (Ok spec_yaml, st1) ->
  upsert args api_key spec_yaml e st1 = (Ok spec_id, st2) ->
  let st3 := log st2 generate_banner in
  let req := generation_request spec_id api_key in
  let answer := read_response (generation_url spec_id) (http e (trace st3) req) in
  requests (trace (snd (main args e st))) = (requests (trace st2) ++ [req])%list /\
  (forall x, answer = Raise x ->
     main args e st = (Raise x, log st3 [EvHttp req])) /\
  (exit_status (fst (main args e st)) = 0 <-> exists items, answer = Ok (JObj items)).
Proof.
  intros Hkey Hne Hspec Hupsert st3 req answer.
  pose proof (main_after_upsert args e st api_key spec_yaml st1 spec_id st2
                Hkey Hne Hspec Hupsert) as Hmain.
  cbv zeta in Hmain. change (read_response _ _) with answer in Hmain.
  clearbody answer.
  assert (requests (trace (log st3 [EvHttp req])) = (requests (trace st2) ++ [req])%list)
    as Hreq.
  { simpl. rewrite !requests_app. simpl. by rewrite app_nil_r. }
  destruct answer as [gen|x|code].
  - destruct gen as [|b|n|s|l|items];
      try (rewrite Hmain; simpl fst; simpl snd; split; [exact Hreq|];
           split; [done|]; split; [done|]; intros [? ?]; done).
    destruct Hmain as [Hok Hrequests].
    split; [done|]. split; [done|]. rewrite Hok. simpl. split; eauto.
  - rewrite Hmain. simpl fst; simpl snd. split; [exact Hreq|].
    split; [by intros ? [= <-]|]. split; [done|]. intros [? ?]; done.
  - done.
Qed.

(** C6 at work: the spec is created and generation answers with an object. *)
Lemma generation_gates_exit_witness :
  let e := posix [json_specs []; json_id "s1"; Http2xx BodyEmpty] in
  let st := initial {[ "api.yaml" := "openapi: 3.0.0" ]} in
  exit_status (fst (main (local_args "Y") e st)) = 0 /\
  requests (trace (snd (main (local_args "Y") e st))) =
  [list_request "ws" "PMAK-test";
   post (create_url "ws") "PMAK-test" (variant_A "Y" "openapi: 3.0.0");
   generation_request (JStr "s1") "PMAK-test"].
Proof.
  intros e st.
  destruct (generation_gates_exit (local_args "Y") e st "PMAK-test" "openapi: 3.0.0"
              (snd (get_spec (local_args "Y") e st)) (JStr "s1")
              (snd (upsert (local_args "Y") "PMAK-test" "openapi: 3.0.0" e
                      (snd (get_spec (local_args "Y") e st)))))
    as (Hrequests & _ & Hexit);
    [reflexivity|discriminate|reflexivity|reflexivity|].
  split.
  - apply Hexit. by exists [].
  - exact Hrequests.
Defined.

(** C6 as stated fails: a failed generation trigger fails the run.  The spec
    is created, the generation request is answered with a 500, and [main]
    ends in the same uncaught [RuntimeError] and the same exit status 1 as a
    run whose three create variants were all refused. *)
Lemma generation_failure_fails_the_run :
  let st := initial {[ "api.yaml" := "openapi: 3.0.0" ]} in
  let args := local_args "Y" in
  let e := posix [json_specs []; json_id "s1"; HttpStatus 500 "boom"] in
  let refused := posix [json_specs []; HttpStatus 400 "a"; HttpStatus 400 "b";
                        HttpStatus 400 "c"] in
  fst (upsert args "PMAK-test" "openapi: 3.0.0" e (snd (get_spec args e st))) =
  Ok (JStr "s1") /\
  fst (main args e st) =
  Raise (http_failed 500 (generation_url (JStr "s1")) "boom") /\
  exit_status (fst (main args e st)) = 1 /\
  exit_status (fst (main args refused st)) = 1.
Proof. intros st args e refused. repeat split; reflexivity. Qed.

(** ** What a run appends to the trace *)

Lemma adds_ret {A} P (a : A) : P [] -> adds P (ret a).
Proof. intros HP e st. exists []. simpl. by rewrite app_nil_r. Qed.

Lemma adds_raise {A} P x : P [] -> adds P (@raise A x).
Proof. intros HP e st. exists []. simpl. by rewrite app_nil_r. Qed.

Lemma adds_sys_exit {A} P code : P [] -> adds P (@sys_exit A code).
Proof. intros HP e st. exists []. simpl. by rewrite app_nil_r. Qed.

Lemma adds_lift {A} P (r : result A) : P [] -> adds P (lift r).
Proof. intros HP e st. exists []. simpl. by rewrite app_nil_r. Qed.

Lemma adds_getenv P : P [] -> adds P os_environ_get_api_key.
Proof. intros HP e st. exists []. simpl. by rewrite app_nil_r. Qed.

Lemma adds_emit P ev : P [ev] -> adds P (emit ev).
Proof. intros HP e st. by exists [ev]. Qed.

Lemma adds_urlopen P req : P [EvHttp req] -> adds P (urlopen req).
Proof. intros HP e st. by exists [EvHttp req]. Qed.

Lemma adds_read_text P path : P [] -> adds P (read_text path).
Proof.
  intros HP e st. exists []. unfold read_text.
  destruct (fs st !! path); simpl; by rewrite app_nil_r.
Qed.

Lemma adds_write_text P path text :
  (forall bytes, P [EvWrite path bytes]) -> adds P (write_text path text).
Proof. intros HP e st. eexists. simpl. split; [done|]. apply HP. Qed.

Lemma adds_subprocess_run P cmd : P [EvRun cmd] -> adds P (subprocess_run cmd).
Proof.
  intros HP e st. exists [EvRun cmd]. split; [|done].
  unfold subprocess_run.
  destruct (aws e (trace st) cmd) as [|code [bytes|]]; simpl; [done| |];
    by destruct (code =? 0).
Qed.

Lemma adds_bind {A B} P (c : M A) (k : A -> M B) :
  sequential P -> adds P c -> (forall a, adds P (k a)) -> adds P (bind c k).
Proof.
  intros [Hnil Happ] Hc Hk e st. unfold bind.
  destruct (Hc e st) as (evs & Htr & Hevs).
  destruct (c e st) as [[a|x|code] st']; simpl in *; [|by exists evs..].
  destruct (Hk a e st') as (evs' & Htr' & Hevs').
  exists (evs ++ evs')%list. split; [|by apply Happ].
  by rewrite Htr', Htr, app_assoc.
Qed.

Lemma adds_try_except {A} P (c : M A) (h : exn -> M A) :
  sequential P -> adds P c -> (forall x, adds P (h x)) -> adds P (try_except c h).
Proof.
  intros [Hnil Happ] Hc Hh e st. unfold try_except.
  destruct (Hc e st) as (evs & Htr & Hevs).
  destruct (c e st) as [[a|x|code] st']; simpl in *; [by exists evs| |by exists evs].
  destruct (Hh x e st') as (evs' & Htr' & Hevs').
  exists (evs ++ evs')%list. split; [|by apply Happ].
  by rewrite Htr', Htr, app_assoc.
Qed.

Lemma adds_weaken {A} (P Q : list event -> Prop) (c : M A) :
  (forall evs, P evs -> Q evs) -> adds P c -> adds Q c.
Proof.
  intros HPQ Hc e st. destruct (Hc e st) as (evs & Htr & Hevs).
  exists evs. auto.
Qed.

(** The parts of the script, for any property that survives sequencing and
    holds of the events they can emit. *)
Section Adds.
Variable P : list event -> Prop.
Hypothesis P_seq : sequential P.
Hypothesis P_print : forall to text, P [EvPrint to text].

Lemma P_nil : P [].
Proof. apply P_seq. Qed.

Lemma adds_print text : adds P (print text).
Proof. apply adds_emit, P_print. Qed.

Lemma adds_print_err text : adds P (print_err text).
Proof. apply adds_emit, P_print. Qed.

Create HintDb adds.

Ltac adds :=
  repeat first
    [ apply adds_print | apply adds_print_err
    | apply adds_ret, P_nil | apply adds_raise, P_nil
    | apply adds_lift, P_nil | apply adds_sys_exit, P_nil
    | apply adds_read_text, P_nil | apply adds_getenv, P_nil
    | apply adds_urlopen; solve [auto with adds]
    | solve [auto with adds]
    | apply adds_bind; [exact P_seq| |intros ?]
    | apply adds_try_except; [exact P_seq| |intros ?] ].

Section Network.
Variable api_key : string.
Hypothesis P_http : forall method url body,
  P [EvHttp (Request method url api_key body)].

Lemma adds_http_json method url body :
  adds P (http_json method url api_key body).
Proof. unfold http_json. adds. Qed.
#[local] Hint Resolve adds_http_json : adds.

Lemma adds_create_spec_loop url tried variants last :
  adds P (create_spec_loop url api_key tried variants last).
Proof.
  revert last. induction variants as [|body rest IH]; intros last; simpl.
  - adds.
  - unfold create_attempt. adds.
Qed.
#[local] Hint Resolve adds_create_spec_loop : adds.

Lemma adds_update_spec_loop url spec_id variants last :
  adds P (update_spec_loop url api_key spec_id variants last).
Proof.
  revert last. induction variants as [|body rest IH]; intros last; simpl.
  - adds.
  - unfold update_attempt. adds.
Qed.
#[local] Hint Resolve adds_update_spec_loop : adds.

Lemma adds_upsert args spec_yaml : adds P (upsert args api_key spec_yaml).
Proof.
  unfold upsert, list_specs. adds.
  match goal with |- adds P (match ?l with _ => _ end) => destruct l as [|first ?] end;
    [|destruct (truthy _)];
    unfold create_path, update_path, create_spec, update_spec; adds.
Qed.
#[local] Hint Resolve adds_upsert : adds.

Lemma adds_generate spec_id : adds P (generate spec_id api_key).
Proof.
  unfold generate, generate_collection_from_spec. adds.
Qed.
#[local] Hint Resolve adds_generate : adds.

Lemma adds_sync_spec args spec_yaml : adds P (sync_spec args api_key spec_yaml).
Proof.
  unfold sync_spec. adds.
Qed.
End Network.

Section Local.
Hypothesis P_write : forall path bytes, P [EvWrite path bytes].

Lemma adds_load_local args path : adds P (load_local args path).
Proof.
  unfold load_local. adds.
  - destruct (negb _); adds. by apply adds_write_text.
  - destruct (negb _); adds.
Qed.
#[local] Hint Resolve adds_load_local : adds.

Hypothesis P_run : forall cmd, P [EvRun cmd].

Lemma adds_export_from_gateway args : adds P (export_from_gateway args).
Proof.
  unfold export_from_gateway. adds.
  - destruct (missing args); unfold parser_error; adds.
  - destruct (region args), (rest_api_id args), (stage_name args); adds.
    unfold aws_export_openapi. adds. apply adds_subprocess_run, P_run.
Qed.
#[local] Hint Resolve adds_export_from_gateway : adds.

Lemma adds_get_spec args : adds P (get_spec args).
Proof.
  unfold get_spec. adds.
  destruct (truthy_str _); adds.
Qed.
End Local.
End Adds.

Lemma sequential_no_request : sequential no_request.
Proof.
  split; [done|]. unfold no_request. intros evs evs' H H'.
  by rewrite requests_app, H, H'.
Qed.

Lemma sequential_no_command : sequential no_command.
Proof.
  split; [done|]. unfold no_command. intros evs evs' H H'.
  by rewrite commands_app, H, H'.
Qed.

Lemma sequential_all_keyed api_key : sequential (all_keyed api_key).
Proof.
  split; [by apply Forall_nil|]. unfold all_keyed. intros evs evs' H H'.
  rewrite requests_app. by apply Forall_app.
Qed.

(** [main] once the key is known to be there, as one computation. *)
Lemma main_with_key_adds P args e st api_key :
  POSTMAN_API_KEY e = Some api_key -> api_key <> "" ->
  adds P (bind (get_spec args) (fun spec_yaml => sync_spec args api_key spec_yaml)) ->
  exists evs, trace (snd (main args e st)) = (trace st ++ evs)%list /\ P evs.
Proof.
  intros Hkey Hne Hadds. rewrite (main_with_key args e st api_key Hkey Hne).
  apply Hadds.
Qed.

(** Step 1 in local mode is [load_local]. *)
Lemma get_spec_local_mode args e st :
  truthy_str (local_spec args) = true ->
  get_spec args e st =
  (print [Lit rule] ;;; load_local args (default "" (local_spec args))) e st.
Proof. intros Hlocal. unfold get_spec. by rewrite !print_then, Hlocal. Qed.

Lemma get_spec_requests args e st :
  requests (trace (snd (get_spec args e st))) = requests (trace st).
Proof.
  destruct (adds_get_spec no_request sequential_no_request) with (args := args)
    (e := e) (st := st) as (evs & Htr & Hevs); try done.
  rewrite Htr, requests_app, Hevs. by rewrite app_nil_r.
Qed.

(** X1.  Step 1 never talks to the hub, in either mode and however it ends;
    and when step 1 does not return a document, the whole run issues no HTTP
    request. *)
Theorem acquisition_precedes_requests (args : Namespace) (e : environ) (st : state) :
  requests (trace (snd (get_spec args e st))) = requests (trace st) /\
  ((forall spec_yaml, fst (get_spec args e st) <> Ok spec_yaml) ->
   requests (trace (snd (main args e st))) = requests (trace st)).
Proof.
  pose proof (get_spec_requests args e st) as Hstep.
  split; [exact Hstep|]. intros Hfail.
  destruct (truthy_str (POSTMAN_API_KEY e)) eqn:Hkey.
  - destruct (truthy_str_Some _ Hkey) as (api_key & Hsome & Hne).
    rewrite (main_with_key args e st api_key Hsome Hne). unfold bind.
    destruct (get_spec args e st) as [[spec_yaml|x|code] st1] eqn:Hspec;
      simpl in *; [|done|done].
    by destruct (Hfail spec_yaml).
  - rewrite (main_without_key args e st Hkey). simpl.
    rewrite requests_app. simpl. by rewrite app_nil_r.
Qed.

(** X1 at work: the local file is not there. *)
Lemma acquisition_precedes_requests_witness :
  requests (trace (snd (main (local_args "Y") (posix [json_specs []]) (initial ∅)))) = [].
Proof.
  destruct (acquisition_precedes_requests (local_args "Y") (posix [json_specs []])
              (initial ∅)) as [_ Hnone].
  apply Hnone. intros spec_yaml Hok. discriminate Hok.
Defined.

(** X2.  Local mode wins: when a local spec is given, the run never starts
    an external command, whatever the export options say. *)
Theorem local_mode_runs_no_command (args : Namespace) (e : environ) (st : state) :
  truthy_str (local_spec args) = true ->
  commands (trace (snd (main args e st))) = commands (trace st).
Proof.
  intros Hlocal.
  destruct (truthy_str (POSTMAN_API_KEY e)) eqn:Hkey.
  - destruct (truthy_str_Some _ Hkey) as (api_key & Hsome & Hne).
    rewrite (main_with_key args e st api_key Hsome Hne).
    assert (adds no_command
              (bind (print [Lit rule] ;;;
                     load_local args (default "" (local_spec args)))
                 (fun spec_yaml => sync_spec args api_key spec_yaml))) as Hadds.
    { apply adds_bind; [apply sequential_no_command| |intros spec_yaml].
      - apply adds_bind; [apply sequential_no_command| |intros _].
        + by apply adds_print.
        + by apply adds_load_local; [apply sequential_no_command|..].
      - by apply adds_sync_spec; [apply sequential_no_command|..]. }
    destruct (Hadds e st) as (evs & Htr & Hevs).
    unfold bind at 1 in Htr. unfold bind at 1.
    rewrite <- (get_spec_local_mode args e st Hlocal) in Htr.
    rewrite Htr, commands_app, Hevs. by rewrite app_nil_r.
  - rewrite (main_without_key args e st Hkey). simpl.
    rewrite commands_app. simpl. by rewrite app_nil_r.
Qed.

(** X2 at work: a local spec together with a full set of export options. *)
Lemma local_mode_runs_no_command_witness :
  let args := {| workspace_id := "ws"; local_spec := Some "api.yaml";
                 region := Some "us-east-1"; rest_api_id := Some "yvzmor0d68";
                 stage_name := Some "dev"; spec_name := "Y";
                 out := "openapi.yaml" |} in
  let e := gateway (AwsExit 0 (Some "exported")) [json_specs []; json_id "s1"] in
  commands (trace (snd (main args e (initial {[ "api.yaml" := "local" ]})))) = [].
Proof.
  intros args e.
  apply (local_mode_runs_no_command args e (initial {[ "api.yaml" := "local" ]})).
  reflexivity.
Defined.

(** X3.  Every HTTP request of a run carries the key read from the
    environment in [X-Api-Key], the two JSON headers, and the 60 second
    timeout. *)
Theorem every_request_is_keyed (args : Namespace) (e : environ) (st : state) :
  exists evs,
    trace (snd (main args e st)) = (trace st ++ evs)%list /\
    Forall (keyed (default "" (POSTMAN_API_KEY e))) (requests evs).
Proof.
  destruct (truthy_str (POSTMAN_API_KEY e)) eqn:Hkey.
  - destruct (truthy_str_Some _ Hkey) as (api_key & Hsome & Hne).
    rewrite Hsome. simpl.
    apply (main_with_key_adds (all_keyed api_key) args e st api_key Hsome Hne).
    apply adds_bind; [apply sequential_all_keyed| |intros spec_yaml].
    + apply adds_get_spec; try apply sequential_all_keyed;
        intros; by apply Forall_nil.
    + apply adds_sync_spec; try apply sequential_all_keyed.
      * intros; by apply Forall_nil.
      * intros method url body. by repeat constructor.
  - rewrite (main_without_key args e st Hkey). eexists. split; [done|].
    by apply Forall_nil.
Qed.

(** ** How a run can end *)

Lemma returns_ret {A} (V : A -> Prop) a : V a -> returns_only V (ret a).
Proof. by intros HV e st. Qed.

Lemma returns_raise {A} (V : A -> Prop) x : returns_only V (raise x).
Proof. by intros e st. Qed.

Lemma returns_emit V ev : V tt -> returns_only V (emit ev).
Proof. by intros HV e st. Qed.

Lemma returns_urlopen req : returns_only (fun _ => True) (urlopen req).
Proof. by intros e st. Qed.

Lemma returns_read_text path : returns_only (fun _ => True) (read_text path).
Proof. intros e st. unfold read_text. by destruct (fs st !! path). Qed.

Lemma returns_write_text path text :
  returns_only (fun _ => True) (write_text path text).
Proof. by intros e st. Qed.

Lemma returns_subprocess_run cmd : returns_only (fun _ => True) (subprocess_run cmd).
Proof.
  intros e st. unfold subprocess_run.
  destruct (aws e (trace st) cmd) as [|code written]; [done|].
  by destruct (code =? 0).
Qed.

Lemma returns_lift {A} (V : A -> Prop) (r : result A) :
  (forall code, r <> SystemExit code) -> (forall a, r = Ok a -> V a) ->
  returns_only V (lift r).
Proof.
  intros Hne HV e st. simpl. destruct r as [a|x|code]; [by apply HV|done|].
  by destruct (Hne code).
Qed.

Lemma returns_bind {A B} (U : A -> Prop) (V : B -> Prop) (c : M A) (k : A -> M B) :
  returns_only U c -> (forall a, returns_only V (k a)) ->
  returns_only V (bind c k).
Proof.
  intros Hc Hk e st. unfold bind. specialize (Hc e st).
  destruct (c e st) as [[a|x|code] st']; simpl in *; [apply Hk|done|done].
Qed.

Lemma returns_try_except {A} (V : A -> Prop) (c : M A) (h : exn -> M A) :
  returns_only V c -> (forall x, returns_only V (h x)) ->
  returns_only V (try_except c h).
Proof.
  intros Hc Hh e st. unfold try_except. specialize (Hc e st).
  destruct (c e st) as [[a|x|code] st']; simpl in *; [done|apply Hh|done].
Qed.

Lemma returns_weaken {A} (U V : A -> Prop) (c : M A) :
  (forall a, U a -> V a) -> returns_only U c -> returns_only V c.
Proof.
  intros HUV Hc e st. specialize (Hc e st).
  destruct (fst (c e st)); auto.
Qed.

Lemma returns_http_json method url api_key body :
  returns_only (fun _ => True) (http_json method url api_key body).
Proof.
  unfold http_json. eapply returns_bind; [apply returns_urlopen|].
  intros outcome. apply returns_lift; [|done].
  intros code. apply read_response_no_exit.
Qed.

Lemma returns_create_spec_loop url api_key tried variants last :
  returns_only (fun _ => True) (create_spec_loop url api_key tried variants last).
Proof.
  revert last. induction variants as [|body rest IH]; intros last; simpl.
  - apply returns_raise.
  - apply returns_try_except; [|intros x; apply IH].
    intros e st. pose proof (create_attempt_no_exit url api_key body e st) as Hne.
    destruct (fst (create_attempt url api_key body e st)) as [a|x|code];
      [done|done|by destruct (Hne code)].
Qed.

Lemma returns_update_spec_loop url api_key spec_id variants last :
  returns_only (fun _ => True) (update_spec_loop url api_key spec_id variants last).
Proof.
  revert last. induction variants as [|body rest IH]; intros last; simpl.
  - apply returns_raise.
  - apply returns_try_except; [|intros x; apply IH].
    intros e st. pose proof (update_attempt_no_exit url api_key body e st) as Hne.
    destruct (fst (update_attempt url api_key body e st)) as [a|x|code];
      [done|done|by destruct (Hne code)].
Qed.

Lemma iterate_no_exit j code : iterate j <> SystemExit code.
Proof. by destruct j. Qed.

Lemma with_name_no_exit spec_name specs code :
  with_name spec_name specs <> SystemExit code.
Proof.
  induction specs as [|s rest IH]; simpl; [done|].
  destruct s; try done.
  destruct (with_name spec_name rest) as [found|x|c]; [done|done|].
  intros [= ->]. by destruct IH.
Qed.

Lemma get_specs_no_exit resp code : get_specs resp <> SystemExit code.
Proof. destruct resp; try done. simpl. by destruct (dict_lookup _ _). Qed.

Lemma keys_no_exit gen code : keys gen <> SystemExit code.
Proof. by destruct gen. Qed.

Ltac returns :=
  repeat first
    [ apply returns_ret; done
    | apply returns_raise
    | apply returns_emit; done
    | apply returns_http_json
    | apply returns_create_spec_loop
    | apply returns_update_spec_loop
    | apply returns_read_text
    | apply returns_write_text
    | apply returns_subprocess_run
    | apply returns_lift;
        [intros ?; first [apply iterate_no_exit | apply with_name_no_exit
                         | apply get_specs_no_exit | apply keys_no_exit] | done]
    | eapply (returns_bind (fun _ => True)); [|intros ?] ].

Lemma returns_upsert args api_key spec_yaml :
  returns_only (fun _ => True) (upsert args api_key spec_yaml).
Proof.
  unfold upsert, print, list_specs. returns.
  match goal with |- returns_only _ (match ?l with _ => _ end) =>
    destruct l as [|first ?] end;
    [|destruct (truthy _)];
    unfold create_path, update_path, create_spec, update_spec, print; returns.
Qed.

Lemma returns_generate spec_id api_key :
  returns_only (fun _ => True) (generate spec_id api_key).
Proof.
  unfold generate, generate_collection_from_spec, print. returns.
Qed.

(** Steps 2 and 3 return 0 or raise. *)
Lemma returns_sync_spec args api_key spec_yaml :
  returns_only (fun code => code = 0) (sync_spec args api_key spec_yaml).
Proof.
  unfold sync_spec, print.
  eapply returns_bind; [apply returns_upsert|intros spec_id].
  eapply returns_bind; [apply returns_generate|intros _].
  returns.
Qed.

(** Step 1 in local mode returns or raises. *)
Lemma returns_load_local args path :
  returns_only (fun _ => True) (load_local args path).
Proof.
  unfold load_local, print. returns.
  - destruct (negb _); returns.
  - destruct (negb _); returns.
Qed.

(** Step 1 in export mode with every option set returns or raises. *)
Lemma returns_export_from_gateway args :
  missing args = [] ->
  returns_only (fun _ => True) (export_from_gateway args).
Proof.
  intros Hmissing. unfold export_from_gateway, print. rewrite Hmissing. returns.
  destruct (region args), (rest_api_id args), (stage_name args); returns.
Qed.

Lemma returns_get_spec args :
  truthy_str (local_spec args) = true \/ missing args = [] ->
  returns_only (fun _ => True) (get_spec args).
Proof.
  intros Hmode. unfold get_spec, print. returns.
  destruct (truthy_str (local_spec args)).
  - apply returns_load_local.
  - destruct Hmode as [|Hmissing]; [done|].
    by apply returns_export_from_gateway.
Qed.

(** X4.  Once the command line has parsed (from the key test of [main] on:
    usage errors and [--help] end the process inside [parse_args], before
    it), the exit status of a run is 0, 1 or 2.  It is 2 exactly for a
    configuration error (the key is not set, or export mode lacks one of its
    options) and 0 exactly when [main] returns 0; every other failure is an
    uncaught exception, status 1. *)
Theorem exit_status_meaning (args : Namespace) (e : environ) (st : state) :
  let status := exit_status (fst (main args e st)) in
  (status = 0 \/ status = 1 \/ status = 2) /\
  (status = 2 <->
   truthy_str (POSTMAN_API_KEY e) = false \/
   (truthy_str (local_spec args) = false /\ missing args <> [])) /\
  (status = 0 <-> fst (main args e st) = Ok 0).
Proof.
  intros status. unfold status.
  destruct (truthy_str (POSTMAN_API_KEY e)) eqn:Hkey.
  - destruct (truthy_str_Some _ Hkey) as (api_key & Hsome & Hne).
    assert (truthy_str (local_spec args) = false /\ missing args <> [] \/
            (truthy_str (local_spec args) = true \/ missing args = []))
      as [[Hlocal Hmissing]|Hmode].
    { destruct (truthy_str (local_spec args)); [auto|].
      destruct (decide (missing args = [])); auto. }
    + rewrite (main_with_key args e st api_key Hsome Hne). unfold bind.
      rewrite (get_spec_missing args e st Hlocal Hmissing). simpl.
      split; [auto|]. split; [|done]. split; auto.
    + rewrite (main_with_key args e st api_key Hsome Hne).
      pose proof (returns_bind (fun _ => True) (fun code => code = 0)
                    (get_spec args)
                    (fun spec_yaml => sync_spec args api_key spec_yaml)
                    (returns_get_spec args Hmode)
                    (fun spec_yaml => returns_sync_spec args api_key spec_yaml)
                    e st) as Hret.
      destruct (fst (bind (get_spec args) _ e st)) as [code|x|code];
        [subst code|..]; simpl; try done.
      * split; [auto|]. split; [|done]. split; [done|].
        intros [|[Hlocal Hmissing]]; [done|].
        destruct Hmode as [Htrue|Hnone]; congruence.
      * split; [auto|]. split; [|done]. split; [done|].
        intros [|[Hlocal Hmissing]]; [done|].
        destruct Hmode as [Htrue|Hnone]; congruence.
  - rewrite (main_without_key args e st Hkey). simpl.
    split; [auto|]. split; [|done]. split; auto.
Qed.

(** ** How many requests a run issues *)

Lemma at_most_weaken {A} n m (c : M A) :
  (n <= m)%nat -> requests_at_most n c -> requests_at_most m c.
Proof. intros Hnm. apply adds_weaken. intros evs. lia. Qed.

Lemma at_most_quiet {A} (c : M A) : adds no_request c -> requests_at_most 0 c.
Proof. apply adds_weaken. unfold no_request. by intros evs ->. Qed.

Lemma at_most_bind {A B} n m (c : M A) (k : A -> M B) :
  requests_at_most n c -> (forall a, requests_at_most m (k a)) ->
  requests_at_most (n + m) (bind c k).
Proof.
  intros Hc Hk e st. unfold bind.
  destruct (Hc e st) as (evs & Htr & Hevs).
  destruct (c e st) as [[a|x|code] st']; simpl in *;
    [|exists evs; split; [done|lia]..].
  destruct (Hk a e st') as (evs' & Htr' & Hevs').
  exists (evs ++ evs')%list. split; [by rewrite Htr', Htr, app_assoc|].
  rewrite requests_app, length_app. lia.
Qed.

Lemma at_most_try_except {A} n m (c : M A) (h : exn -> M A) :
  requests_at_most n c -> (forall x, requests_at_most m (h x)) ->
  requests_at_most (n + m) (try_except c h).
Proof.
  intros Hc Hh e st. unfold try_except.
  destruct (Hc e st) as (evs & Htr & Hevs).
  destruct (c e st) as [[a|x|code] st']; simpl in *;
    [exists evs; split; [done|lia]| |exists evs; split; [done|lia]].
  destruct (Hh x e st') as (evs' & Htr' & Hevs').
  exists (evs ++ evs')%list. split; [by rewrite Htr', Htr, app_assoc|].
  rewrite requests_app, length_app. lia.
Qed.

Lemma at_most_http_json method url api_key body :
  requests_at_most 1 (http_json method url api_key body).
Proof.
  intros e st. rewrite http_json_run. eexists. split; [done|]. simpl. lia.
Qed.

Lemma at_most_print text : requests_at_most 0 (print text).
Proof. intros e st. eexists. split; [done|]. simpl. lia. Qed.

Lemma at_most_create_spec_loop url api_key tried variants last :
  requests_at_most (List.length variants)
    (create_spec_loop url api_key tried variants last).
Proof.
  revert last. induction variants as [|body rest IH]; intros last; simpl.
  - apply adds_raise. simpl. lia.
  - apply (at_most_try_except 1); [|intros x; apply IH].
    intros e st. rewrite create_attempt_run. eexists. split; [done|]. simpl. lia.
Qed.

Lemma at_most_update_spec_loop url api_key spec_id variants last :
  requests_at_most (List.length variants)
    (update_spec_loop url api_key spec_id variants last).
Proof.
  revert last. induction variants as [|body rest IH]; intros last; simpl.
  - apply adds_raise. simpl. lia.
  - apply (at_most_try_except 1); [|intros x; apply IH].
    intros e st. rewrite update_attempt_run. eexists. split; [done|]. simpl. lia.
Qed.

Lemma at_most_create_path args api_key spec_yaml :
  requests_at_most 3 (create_path args api_key spec_yaml).
Proof.
  unfold create_path, create_spec.
  apply (at_most_bind 3 0); [apply at_most_create_spec_loop|intros spec_id].
  apply (at_most_bind 0 0); [apply at_most_print|intros _].
  apply adds_ret. simpl. lia.
Qed.

Lemma at_most_update_path args api_key spec_yaml spec_id :
  requests_at_most 3 (update_path args api_key spec_yaml spec_id).
Proof.
  unfold update_path, update_spec.
  apply (at_most_bind 3 0); [apply at_most_update_spec_loop|intros _].
  apply (at_most_bind 0 0); [apply at_most_print|intros _].
  apply adds_ret. simpl. lia.
Qed.

Lemma at_most_generate spec_id api_key :
  requests_at_most 1 (generate spec_id api_key).
Proof.
  intros e st. rewrite generate_run.
  destruct (read_response _ _) as [[| | | | |items]|x|code];
    eexists; (split; [simpl; by rewrite <- app_assoc|]);
    rewrite requests_app; simpl; lia.
Qed.

(** Step 2 starts with the list request and issues at most three more. *)
Lemma upsert_requests args api_key spec_yaml e st :
  exists evs,
    trace (snd (upsert args api_key spec_yaml e st)) =
    (trace st ++ upsert_banner
       ++ EvHttp (list_request (workspace_id args) api_key) :: evs)%list /\
    (List.length (requests evs) <= 3)%nat.
Proof.
  pose proof (upsert_run args api_key spec_yaml e st) as Hrun. cbv zeta in Hrun.
  rewrite Hrun. clear Hrun.
  set (st1 := log st (upsert_banner ++ [EvHttp (list_request (workspace_id args) api_key)])%list).
  assert (forall A (c : M A), requests_at_most 3 c ->
            exists evs, trace (snd (c e st1)) =
              (trace st ++ upsert_banner
                 ++ EvHttp (list_request (workspace_id args) api_key) :: evs)%list /\
              (List.length (requests evs) <= 3)%nat) as Hfrom.
  { intros A c Hc. destruct (Hc e st1) as (evs & Htr & Hevs).
    exists evs. split; [|done]. rewrite Htr. unfold st1. simpl.
    by rewrite <- !app_assoc. }
  assert (trace st1 =
          (trace st ++ upsert_banner
             ++ EvHttp (list_request (workspace_id args) api_key) :: [])%list) as Hst1.
  { unfold st1. simpl. by rewrite <- ?app_assoc. }
  destruct (and_then _ _) as [[|first later]|x|code].
  - apply Hfrom, at_most_create_path.
  - destruct (truthy _);
      [apply Hfrom, at_most_update_path|apply Hfrom, at_most_create_path].
  - exists []. simpl. split; [exact Hst1|lia].
  - exists []. simpl. split; [exact Hst1|lia].
Qed.

(** Steps 2 and 3 start with the list request and issue at most four more. *)
Lemma sync_spec_requests args api_key spec_yaml e st :
  exists rest,
    requests (trace (snd (sync_spec args api_key spec_yaml e st))) =
    (requests (trace st)
       ++ list_request (workspace_id args) api_key :: rest)%list /\
    (List.length rest <= 4)%nat.
Proof.
  unfold sync_spec, bind at 1.
  destruct (upsert_requests args api_key spec_yaml e st) as (evs & Htr & Hevs).
  assert (requests (trace (snd (upsert args api_key spec_yaml e st))) =
          (requests (trace st)
             ++ list_request (workspace_id args) api_key :: requests evs)%list)
    as Hreq.
  { rewrite Htr, !requests_app. done. }
  destruct (upsert args api_key spec_yaml e st) as [[spec_id|x|code] st2];
    simpl in Hreq |- *;
    [|exists (requests evs); split; [done|lia]..].
  assert (requests_at_most 1
            (generate spec_id api_key ;;;
             print [Lit (newline ++ rule)] ;;;
             print [Lit "✅ DONE - Ingestion complete"] ;;;
             print [Lit rule] ;;;
             print [Lit "Next: Protect curated collections from regen drift."] ;;;
             ret 0)) as Hrest.
  { apply (at_most_bind 1 0); [apply at_most_generate|intros _].
    repeat (apply (at_most_bind 0 0); [apply at_most_print|intros _]).
    apply adds_ret. simpl. lia. }
  destruct (Hrest e st2) as (evs' & Htr' & Hevs').
  exists (requests evs ++ requests evs')%list. split.
  - rewrite Htr', requests_app, Hreq. by rewrite <- app_assoc.
  - rewrite length_app. lia.
Qed.

(** X5.  A run issues at most five HTTP requests, and the first of them is
    always the list request: nothing is created, updated or generated before
    the lookup. *)
Theorem request_budget (args : Namespace) (e : environ) (st : state) :
  exists rs,
    requests (trace (snd (main args e st))) = (requests (trace st) ++ rs)%list /\
    (rs = [] \/
     exists rest,
       rs = list_request (workspace_id args) (default "" (POSTMAN_API_KEY e)) :: rest /\
       (List.length rest <= 4)%nat).
Proof.
  destruct (truthy_str (POSTMAN_API_KEY e)) eqn:Hkey.
  - destruct (truthy_str_Some _ Hkey) as (api_key & Hsome & Hne).
    rewrite (main_with_key args e st api_key Hsome Hne), Hsome. simpl.
    unfold bind. pose proof (get_spec_requests args e st) as Hstep.
    destruct (get_spec args e st) as [[spec_yaml|x|code] st1]; simpl in *;
      [|exists []; rewrite app_nil_r; auto..].
    destruct (sync_spec_requests args api_key spec_yaml e st1) as (rest & Hreq & Hlen).
    exists (list_request (workspace_id args) api_key :: rest). split.
    + by rewrite Hreq, Hstep.
    + right. by exists rest.
  - rewrite (main_without_key args e st Hkey). simpl. exists [].
    rewrite requests_app. simpl. auto.
Qed.

(** ** Step 1 in export mode *)

Lemma missing_none args r a s :
  region args = Some r -> r <> "" ->
  rest_api_id args = Some a -> a <> "" ->
  stage_name args = Some s -> s <> "" ->
  missing args = [].
Proof.
  intros Hr Hrne Ha Hane Hs Hsne. unfold missing.
  rewrite Hr, Ha, Hs. simpl.
  destruct (String.eqb_spec r ""), (String.eqb_spec a ""), (String.eqb_spec s "");
    done.
Qed.

(** Export mode with its three options set, by what the command does. *)
Lemma get_spec_export args e st r a s :
  truthy_str (local_spec args) = false ->
  region args = Some r -> r <> "" ->
  rest_api_id args = Some a -> a <> "" ->
  stage_name args = Some s -> s <> "" ->
  let cmd := export_command r a s (out args) in
  let st0 := before_export st cmd in
  get_spec args e st =
  match aws e (trace st0) cmd with
  | AwsNotInstalled => (Raise (no_such_file "aws"), log st0 [EvRun cmd])
  | AwsExit code written =>
      let files :=
        match written with
        | Some bytes => <[out args := bytes]> (fs st)
        | None => fs st
        end in
      if code =? 0 then
        match files !! out args with
        | Some content =>
            (Ok (universal_newlines content),
             {| trace := trace st0 ++
                         [EvRun cmd;
                          EvPrint Stdout
                            [Lit "✅ Exported spec → "; Lit (out args); Lit " (";
                             FmtInt (py_len (universal_newlines content));
                             Lit " chars)"]];
                fs := files |})
        | None =>
            (Raise (no_such_file (out args)),
             {| trace := trace st0 ++ [EvRun cmd]; fs := files |})
        end
      else
        (Raise (command_failed cmd code),
         {| trace := trace st0 ++ [EvRun cmd]; fs := files |})
  end.
Proof.
  intros Hlocal Hr Hrne Ha Hane Hs Hsne cmd st0.
  unfold get_spec. rewrite print_then, Hlocal.
  unfold export_from_gateway. rewrite !print_then, !log_log. simpl app.
  rewrite (missing_none args r a s) by done.
  rewrite Hr, Ha, Hs. unfold aws_export_openapi.
  unfold bind at 1. unfold ret. unfold bind at 1.
  rewrite print_then, log_log. simpl app.
  fold (export_command r a s (out args)). fold cmd. fold (running cmd).
  change (log st _) with st0.
  unfold subprocess_run.
  replace (List.last cmd "") with (out args) by done.
  change (fs st0) with (fs st).
  destruct (aws e (trace st0) cmd) as [|code written]; [done|].
  destruct written as [bytes|]; simpl; destruct (code =? 0); simpl; try done.
  - unfold bind, read_text. simpl. rewrite lookup_insert_eq. simpl.
    unfold print, emit. simpl. by rewrite <- app_assoc.
  - unfold bind, read_text. simpl.
    destruct (fs st !! out args) as [content|]; simpl; [|done].
    unfold print, emit. simpl. by rewrite <- app_assoc.
Qed.

(** X6.  Export mode with its three options set runs exactly one command,
    [aws apigateway get-export] for that region, API and stage with the
    output path as last argument.  When the command exits with 0 having
    written the file, the document that goes on to steps 2 and 3 is that
    file, read as text. *)
Theorem export_mode_syncs_the_export (args : Namespace) (e : environ) (st : state)
    (api_key r a s bytes : string) :
  POSTMAN_API_KEY e = Some api_key -> api_key <> "" ->
  truthy_str (local_spec args) = false ->
  region args = Some r -> r <> "" ->
  rest_api_id args = Some a -> a <> "" ->
  stage_name args = Some s -> s <> "" ->
  let cmd := export_command r a s (out args) in
  aws e (trace (before_export st cmd)) cmd = AwsExit 0 (Some bytes) ->
  exists st1,
    get_spec args e st = (Ok (universal_newlines bytes), st1) /\
    commands (trace st1) = (commands (trace st) ++ [cmd])%list /\
    fs st1 = <[out args := bytes]> (fs st) /\
    main args e st = sync_spec args api_key (universal_newlines bytes) e st1.
Proof.
  intros Hkey Hne Hlocal Hr Hrne Ha Hane Hs Hsne cmd Haws.
  pose proof (get_spec_export args e st r a s Hlocal Hr Hrne Ha Hane Hs Hsne)
    as Hspec.
  cbv zeta in Hspec. fold cmd in Hspec. rewrite Haws in Hspec. simpl in Hspec.
  rewrite lookup_insert_eq in Hspec.
  eexists. split; [exact Hspec|]. split; [|split].
  - simpl. rewrite !commands_app. simpl. by rewrite app_nil_r.
  - done.
  - rewrite (main_with_key args e st api_key Hkey Hne).
    by rewrite (bind_ok _ _ _ _ _ _ Hspec).
Qed.

(** X6 at work: a complete export-mode run against a hub without the spec. *)
Lemma export_mode_syncs_the_export_witness :
  let e := gateway (AwsExit 0 (Some "openapi: 3.0.1"))
             [json_specs []; json_id "s1"; Http2xx BodyEmpty] in
  let run := main export_args e (initial ∅) in
  fst run = Ok 0 /\
  commands (trace (snd run)) =
  [["aws"; "apigateway"; "get-export"; "--region"; "us-east-1";
    "--rest-api-id"; "yvzmor0d68"; "--stage-name"; "dev"; "--export-type";
    "oas30"; "openapi.yaml"]] /\
  requests (trace (snd run)) =
  [list_request "ws" "PMAK-test";
   post (create_url "ws") "PMAK-test" (variant_A "Y" "openapi: 3.0.1");
   generation_request (JStr "s1") "PMAK-test"].
Proof.
  intros e run.
  destruct (export_mode_syncs_the_export export_args e (initial ∅) "PMAK-test"
              "us-east-1" "yvzmor0d68" "dev" "openapi: 3.0.1")
    as (st1 & Hspec & _ & _ & Hmain); [done..|].
  unfold run. rewrite Hmain.
  injection Hspec as <-. repeat split; reflexivity.
Defined.

(** X7.  In export mode, when the [aws] command cannot be started or exits
    with a status other than 0, step 1 raises ([FileNotFoundError],
    [CalledProcessError] with the command and the status) and the run ends
    there with status 1: the command has run once and no HTTP request is
    issued. *)
Theorem export_failure_stops_the_run (args : Namespace) (e : environ) (st : state)
    (api_key r a s : string) :
  POSTMAN_API_KEY e = Some api_key -> api_key <> "" ->
  truthy_str (local_spec args) = false ->
  region args = Some r -> r <> "" ->
  rest_api_id args = Some a -> a <> "" ->
  stage_name args = Some s -> s <> "" ->
  let cmd := export_command r a s (out args) in
  let st0 := before_export st cmd in
  (aws e (trace st0) cmd = AwsNotInstalled ->
   main args e st = (Raise (no_such_file "aws"), log st0 [EvRun cmd])) /\
  (forall code written,
     aws e (trace st0) cmd = AwsExit code written -> code <> 0 ->
     fst (main args e st) = Raise (command_failed cmd code) /\
     trace (snd (main args e st)) = (trace st0 ++ [EvRun cmd])%list) /\
  (requests (trace st0 ++ [EvRun cmd]) = requests (trace st) /\
   commands (trace st0 ++ [EvRun cmd]) = (commands (trace st) ++ [cmd])%list).
Proof.
  intros Hkey Hne Hlocal Hr Hrne Ha Hane Hs Hsne cmd st0.
  pose proof (get_spec_export args e st r a s Hlocal Hr Hrne Ha Hane Hs Hsne)
    as Hspec.
  cbv zeta in Hspec. fold cmd st0 in Hspec.
  rewrite (main_with_key args e st api_key Hkey Hne).
  split; [|split].
  - intros Haws. rewrite Haws in Hspec.
    by rewrite (bind_raise _ _ _ _ _ _ Hspec).
  - intros code written Haws Hcode. rewrite Haws in Hspec.
    destruct (Z.eqb_spec code 0) as [|_]; [done|].
    by rewrite (bind_raise _ _ _ _ _ _ Hspec).
  - unfold st0, before_export. simpl.
    rewrite !requests_app, !commands_app. simpl. by rewrite !app_nil_r.
Qed.

(** X7 at work: the command exits with status 254. *)
Lemma export_failure_stops_the_run_witness :
  let e := gateway (AwsExit 254 None) [json_specs []; json_id "s1"] in
  let run := main export_args e (initial ∅) in
  exit_status (fst run) = 1 /\ requests (trace (snd run)) = [] /\
  List.length (commands (trace (snd run))) = 1%nat.
Proof.
  intros e run.
  destruct (export_failure_stops_the_run export_args e (initial ∅) "PMAK-test"
              "us-east-1" "yvzmor0d68" "dev")
    as (_ & Hfailed & Hrequests & Hcommands); [done..|].
  destruct (Hfailed 254 None) as [Hraise Htrace]; [done|done|].
  unfold run. rewrite Hraise, Htrace, Hrequests, Hcommands. done.
Defined.

(** X8.  In local mode, when the file is not there, [open] raises
    [FileNotFoundError] right after the banner of step 1: nothing is
    written, nothing is requested, and the run ends with status 1. *)
Theorem missing_local_file (args : Namespace) (e : environ) (st : state)
    (api_key path : string) :
  POSTMAN_API_KEY e = Some api_key -> api_key <> "" ->
  local_spec args = Some path -> path <> "" ->
  fs st !! path = None ->
  main args e st = (Raise (no_such_file path), log st local_banner).
Proof.
  intros Hkey Hne Hlocal Hpath Hfile.
  rewrite (main_with_key args e st api_key Hkey Hne).
  apply bind_raise.
  unfold get_spec. rewrite print_then, Hlocal. simpl.
  destruct (String.eqb_spec path "") as [|_]; [done|]. simpl.
  unfold load_local. rewrite !print_then, !log_log. simpl app.
  unfold bind, read_text. simpl. by rewrite Hfile.
Qed.

(** X8 at work: an empty file system. *)
Lemma missing_local_file_witness :
  main (local_args "Y") (posix [json_specs []]) (initial ∅) =
  (Raise (no_such_file "api.yaml"), log (initial ∅) local_banner).
Proof.
  apply (missing_local_file (local_args "Y") (posix [json_specs []]) (initial ∅)
           "PMAK-test" "api.yaml"); done.
Defined.

Lemma with_name_stray spec_name items :
  ~ Forall is_dict items ->
  with_name spec_name items =
  Raise (Exn AttributeError [Lit "object has no attribute 'get'"] None).
Proof.
  induction items as [|s rest IH]; [by intros []|].
  intros Hnot. destruct s as [| | | | |ref]; try done.
  simpl. rewrite IH; [done|].
  intros Hrest. apply Hnot. apply Forall_cons. split; [by exists ref|done].
Qed.

(** X9.  A lookup that fails is fatal and nothing is written to the hub.
    When [list_specs] raises, step 2 raises the same exception; when the
    value it returns is null, a boolean or a number, step 2 raises
    [TypeError]; when it is a list with an entry that is not an object, step
    2 raises [AttributeError].  In each case the list request is the only
    request of step 2: nothing is created or updated. *)
Theorem lookup_failure_is_fatal (args : Namespace) (api_key spec_yaml : string)
    (e : environ) (st : state) :
  let get := list_request (workspace_id args) api_key in
  let st1 := log st (upsert_banner ++ [EvHttp get])%list in
  let listed := fst (list_specs (workspace_id args) api_key e (log st upsert_banner)) in
  (forall x, listed = Raise x ->
     upsert args api_key spec_yaml e st = (Raise x, st1)) /\
  (forall specs, listed = Ok specs ->
     specs = JNull \/ (exists b, specs = JBool b) \/ (exists n, specs = JNum n) ->
     upsert args api_key spec_yaml e st =
     (Raise (Exn TypeError [Lit "object is not iterable"] None), st1)) /\
  (forall items, listed = Ok (JArr items) -> ~ Forall is_dict items ->
     upsert args api_key spec_yaml e st =
     (Raise (Exn AttributeError [Lit "object has no attribute 'get'"] None), st1)) /\
  requests (trace st1) = (requests (trace st) ++ [get])%list.
Proof.
  intros get st1 listed.
  pose proof (upsert_run args api_key spec_yaml e st) as Hrun.
  cbv zeta in Hrun. fold get st1 in Hrun.
  unfold listed. rewrite list_specs_run. simpl fst. simpl trace. fold get.
  split; [|split; [|split]].
  - intros x Hx. rewrite Hrun, Hx. done.
  - intros specs Hspecs Hshape. rewrite Hrun, Hspecs.
    by destruct Hshape as [->|[[b ->]|[n ->]]].
  - intros items Hspecs Hstray. rewrite Hrun, Hspecs.
    change (and_then (and_then (Ok (JArr items)) iterate) (with_name (spec_name args)))
      with (with_name (spec_name args) items).
    by rewrite (with_name_stray _ _ Hstray).
  - unfold st1. simpl. rewrite !requests_app. simpl. by rewrite ?app_nil_r.
Qed.

(** X9 at work: the hub answers the list request with a 401; with a list
    that holds a string. *)
Lemma lookup_failure_is_fatal_witness :
  let e := posix [HttpStatus 401 "unauthorized"; json_id "s1"] in
  let e' := posix [Http2xx (BodyJson (JObj [("specs", JArr [JStr "stray"])]));
                   json_id "s1"] in
  fst (upsert (local_args "Y") "PMAK-test" "doc" e (initial ∅)) =
  Raise (http_failed 401 (create_url "ws") "unauthorized") /\
  requests (trace (snd (upsert (local_args "Y") "PMAK-test" "doc" e (initial ∅)))) =
  [list_request "ws" "PMAK-test"] /\
  requests (trace (snd (upsert (local_args "Y") "PMAK-test" "doc" e' (initial ∅)))) =
  [list_request "ws" "PMAK-test"].
Proof.
  intros e e'.
  destruct (lookup_failure_is_fatal (local_args "Y") "PMAK-test" "doc" e (initial ∅))
    as (Hraise & _ & _ & Hrequests).
  destruct (lookup_failure_is_fatal (local_args "Y") "PMAK-test" "doc" e' (initial ∅))
    as (_ & _ & Hstray & Hrequests').
  rewrite (Hraise (http_failed 401 (create_url "ws") "unauthorized")) by done.
  rewrite (Hstray [JStr "stray"]).
  - split; [done|]. split; [exact Hrequests|exact Hrequests'].
  - done.
  - intros Hall. apply Forall_cons in Hall as [[items Hstr] _]. discriminate Hstr.
Defined.

(** ** The lookup by name *)

(** X10.  The lookup keeps every spec with the target name, in list order,
    when every entry of the list is an object; a single entry that is not an
    object aborts it with [AttributeError], wherever that entry stands. *)
Theorem with_name_finds_all (spec_name : string) (specs : list json) :
  (Forall is_dict specs ->
   exists refs, specs = map JObj refs /\
     with_name spec_name specs = Ok (named spec_name refs)) /\
  (~ Forall is_dict specs ->
   with_name spec_name specs =
   Raise (Exn AttributeError [Lit "object has no attribute 'get'"] None)).
Proof.
  induction specs as [|s rest [IHdicts IHother]].
  - split; [|by intros []]. intros _. by exists [].
  - split.
    + intros Hall. apply Forall_cons in Hall as [[items ->] Hrest].
      destruct (IHdicts Hrest) as (refs & -> & Hfound).
      exists (items :: refs). split; [done|].
      simpl. rewrite Hfound. unfold named. simpl.
      by destruct (eq_str _ _).
    + intros Hnot. destruct s as [| | | | |items]; try done.
      simpl. rewrite IHother; [done|].
      intros Hrest. apply Hnot. apply Forall_cons. split; [by exists items|done].
Qed.

(** X10 at work: a stray string after a matching spec. *)
Lemma with_name_finds_all_witness :
  with_name "Y" [JObj (ref "Y" "a"); JStr "stray"] =
  Raise (Exn AttributeError [Lit "object has no attribute 'get'"] None).
Proof.
  apply (with_name_finds_all "Y" [JObj (ref "Y" "a"); JStr "stray"]).
  intros Hall. apply Forall_cons in Hall as [_ Hall].
  apply Forall_cons in Hall as [[items Hstr] _]. discriminate Hstr.
Defined.

(** ** The requests of step 2 *)

(** X11.  Step 2 writes through one endpoint only.  After the list request
    it sends the first [n] variants, in order, for some [n] up to 3: all of
    them as POST to the create URL of the workspace, or all of them as PUT
    to the URL of one spec id; a run never mixes the two. *)
Theorem upsert_uses_one_endpoint (args : Namespace) (api_key spec_yaml : string)
    (e : environ) (st : state) :
  let get := list_request (workspace_id args) api_key in
  let variants := payload_variants (spec_name args) spec_yaml in
  let issued := requests (trace (snd (upsert args api_key spec_yaml e st))) in
  exists n, (n <= 3)%nat /\
    (issued =
     (requests (trace st)
        ++ get :: map (post (create_url (workspace_id args)) api_key)
                    (take n variants))%list \/
     exists spec_id,
       issued =
       (requests (trace st)
          ++ get :: map (put (update_url spec_id) api_key) (take n variants))%list).
Proof.
  intros get variants issued. unfold issued.
  pose proof (upsert_run args api_key spec_yaml e st) as Hrun.
  cbv zeta in Hrun. fold get in Hrun. rewrite Hrun. clear Hrun.
  set (st1 := log st (upsert_banner ++ [EvHttp get])%list).
  assert (requests (trace st1) = (requests (trace st) ++ [get])%list) as Hst1.
  { unfold st1. simpl. rewrite !requests_app. simpl. by rewrite ?app_nil_r. }
  assert (forall l, ((requests (trace st) ++ [get]) ++ l)%list =
                    (requests (trace st) ++ get :: l)%list) as Hcons.
  { intros l. by rewrite <- app_assoc. }
  destruct (and_then _ _) as [[|first later]|x|code].
  - destruct (create_path_requests args api_key spec_yaml e st1) as (n & Hn & Hreq).
    exists n. split; [lia|]. left. by rewrite Hreq, Hst1, Hcons.
  - destruct (truthy _).
    + destruct (update_path_requests args api_key spec_yaml (dict_get "id" first)
                  e st1) as (n & Hn & Hreq).
      exists n. split; [lia|]. right. exists (dict_get "id" first).
      by rewrite Hreq, Hst1, Hcons.
    + destruct (create_path_requests args api_key spec_yaml e st1) as (n & Hn & Hreq).
      exists n. split; [lia|]. left. by rewrite Hreq, Hst1, Hcons.
  - exists 0%nat. split; [lia|]. left. cbn [snd take map]. by rewrite Hst1.
  - exists 0%nat. split; [lia|]. left. cbn [snd take map]. by rewrite Hst1.
Qed.

(** ** The output file *)

Lemma universal_newlines_has_no_CR s : occurs CR (universal_newlines s) = false.
Proof.
  induction s as [|c rest IH]; [done|].
  simpl. destruct (Ascii.eqb c CR) eqn:Hc.
  - destruct rest as [|c2 rest2]; [done|].
    destruct (Ascii.eqb_spec c2 LF) as [->|Hlf]; exact IH.
  - simpl. rewrite Hc. exact IH.
Qed.

Lemma universal_newlines_crlf t :
  occurs CR t = false -> universal_newlines (write_newlines crlf t) = t.
Proof.
  induction t as [|c rest IH]; [done|].
  simpl. intros Hcr. apply orb_false_iff in Hcr as [Hc Hrest].
  destruct (Ascii.eqb_spec c LF) as [->|Hlf].
  - simpl.
    change ("" ++ write_newlines crlf rest)%string with (write_newlines crlf rest).
    by rewrite IH.
  - simpl. rewrite Hc. by rewrite IH.
Qed.

(** What was written is read back as the text it was written from. *)
Lemma read_back linesep text :
  linesep = newline \/ linesep = crlf ->
  occurs CR text = false ->
  universal_newlines (write_newlines linesep text) = text.
Proof.
  intros [->| ->] Hcr.
  - by rewrite write_newlines_posix, universal_newlines_no_CR.
  - by apply universal_newlines_crlf.
Qed.

Lemma missing_none_inv args :
  missing args = [] ->
  exists r a s,
    region args = Some r /\ r <> "" /\
    rest_api_id args = Some a /\ a <> "" /\
    stage_name args = Some s /\ s <> "".
Proof.
  unfold missing. simpl.
  destruct (truthy_str (region args)) eqn:Hr; [|done].
  destruct (truthy_str (rest_api_id args)) eqn:Ha; [|done].
  destruct (truthy_str (stage_name args)) eqn:Hs; [|done].
  intros _.
  destruct (truthy_str_Some _ Hr) as (r & ? & ?).
  destruct (truthy_str_Some _ Ha) as (a & ? & ?).
  destruct (truthy_str_Some _ Hs) as (s & ? & ?).
  by exists r, a, s.
Qed.

(** X12.  Whenever step 1 returns a document, the output file holds it, in
    both modes: reading the output file as text gives exactly the document
    that goes to the hub (on a platform whose line separator is ["\n"] or
    ["\r\n"]). *)
Theorem output_file_holds_the_document (args : Namespace) (e : environ)
    (st st1 : state) (spec_yaml : string) :
  os_linesep e = newline \/ os_linesep e = crlf ->
  get_spec args e st = (Ok spec_yaml, st1) ->
  exists content,
    fs st1 !! out args = Some content /\ universal_newlines content = spec_yaml.
Proof.
  intros Hsep Hspec.
  destruct (truthy_str (local_spec args)) eqn:Hlocal.
  - destruct (truthy_str_Some _ Hlocal) as (path & Hpath & Hne).
    destruct (fs st !! path) as [content|] eqn:Hfile.
    + rewrite (get_spec_local args e st path content Hpath Hne Hfile) in Hspec.
      injection Hspec as <- <-.
      destruct (String.eqb_spec path (out args)) as [<-|Hother]; simpl.
      * by exists content.
      * eexists. split; [by rewrite lookup_insert_eq|].
        apply read_back; [done|]. apply universal_newlines_has_no_CR.
    + exfalso. revert Hspec. unfold get_spec. rewrite print_then, Hlocal, Hpath.
      simpl. unfold load_local. rewrite !print_then.
      unfold bind, read_text. simpl. by rewrite Hfile.
  - destruct (decide (missing args = [])) as [Hnone|Hsome].
    + destruct (missing_none_inv args Hnone)
        as (r & a & s & Hr & Hrne & Ha & Hane & Hs & Hsne).
      rewrite (get_spec_export args e st r a s Hlocal Hr Hrne Ha Hane Hs Hsne)
        in Hspec.
      cbv zeta in Hspec.
      repeat case_match; simplify_eq; simpl; eauto.
    + by rewrite (get_spec_missing args e st Hlocal Hsome) in Hspec.
Qed.

(** X12 at work: a local file with Windows line endings, copied on a POSIX
    machine. *)
Lemma output_file_holds_the_document_witness :
  let e := posix [] in
  let st := initial {[ "api.yaml" := crlf_text ]} in
  exists content,
    fs (snd (get_spec (local_args "Y") e st)) !! "openapi.yaml" = Some content /\
    universal_newlines content = lf_text.
Proof.
  intros e st.
  apply (output_file_holds_the_document (local_args "Y") e st
           (snd (get_spec (local_args "Y") e st)) lf_text); [by left|done].
Defined.

(** ** A run that ends well *)




